(** * Flow graph state engine of the RCS chatbot builder

    A shallow embedding of the zustand store ([src/store/nodesStore.ts]),
    the connection deriver, the [onConnect] handler of the builder, the
    carousel card editor and the export / import panel, followed by the
    properties the specification states about them. *)

From Stdlib Require Import List String Ascii Bool ZArith QArith Lia.
From Stdlib Require Import DecimalString DecimalPos DecimalN.
Import ListNotations.

Set Warnings "-register-all".
Close Scope Q_scope.
Open Scope string_scope.
Open Scope list_scope.

(** ** JavaScript values that cross the JSON boundary *)

(** A JavaScript [number] that JSON can carry is a finite double, hence a
    rational.  No function below computes on a coordinate: numbers are only
    stored and copied. *)
Definition number : Type := Q.

(** What [JSON.parse] returns.  Object members are kept in insertion order. *)
Inductive json : Type :=
| JNull
| JBool (b : bool)
| JNumber (n : number)
| JString (s : string)
| JArray (items : list json)
| JObject (members : list (string * json)).

(** Own property of a parsed object; when a key is written twice the later
    member is the one the object keeps. *)
Fixpoint own_property (k : string) (ms : list (string * json)) : option json :=
  match ms with
  | [] => None
  | (k', v) :: rest =>
      match own_property k rest with
      | Some w => Some w
      | None => if k' =? k then Some v else None
      end
  end.

Inductive exn : Type :=
| SyntaxError
| TypeError
| Error (message : string).

Inductive completion (A : Type) : Type :=
| Normal (a : A)
| Throw (e : exn).
Arguments Normal {A} a.
Arguments Throw {A} e.

(** [v.k] for the two names the import panel reads, [nodes] and
    [connections]: [None] is [undefined].  Reading a property of [null]
    throws; arrays, strings, numbers and booleans have neither property. *)
Definition property (v : json) (k : string) : completion (option json) :=
  match v with
  | JNull => Throw TypeError
  | JObject ms => Normal (own_property k ms)
  | _ => Normal None
  end.

(** [x && Array.isArray(x)] where [x] is the result of a property read. *)
Definition truthy_array (x : option json) : option (list json) :=
  match x with
  | Some (JArray items) => Some items
  | _ => None
  end.

(** [Array.isArray(v)] *)
Definition isArray (v : json) : option (list json) :=
  match v with
  | JArray items => Some items
  | _ => None
  end.

(** ** The store: state, [set] / [get], and a state-and-exception monad *)

Section Store.

(** The element types are whatever the caller puts in the two arrays:
    [NodeData] and [ConnectionData] for the editor, parsed JSON values for
    the import panel (which casts from [any]). *)
Context {Node Conn : Type}.

Record NodesState : Type := mkState {
  nodes : list Node;
  connections : list Conn
}.

(** The partial state object handed to zustand's [set]. *)
Record Partial : Type := mkPartial {
  nodes_field : option (list Node);
  connections_field : option (list Conn)
}.

Definition only_nodes (l : list Node) : Partial := mkPartial (Some l) None.
Definition only_connections (l : list Conn) : Partial := mkPartial None (Some l).

(** zustand merges the partial object into the current state. *)
Definition merge (state : NodesState) (p : Partial) : NodesState :=
  {| nodes := match nodes_field p with Some l => l | None => nodes state end;
     connections :=
       match connections_field p with
       | Some l => l
       | None => connections state
       end |}.

(** A computation reads and writes the store and may throw; a throw does
    not undo the writes made before it. *)
Definition Eff (A : Type) : Type := NodesState -> completion A * NodesState.

Definition ret {A} (a : A) : Eff A := fun state => (Normal a, state).

Definition bind {A B} (m : Eff A) (k : A -> Eff B) : Eff B :=
  fun state =>
    match m state with
    | (Normal a, state') => k a state'
    | (Throw e, state') => (Throw e, state')
    end.

Definition throw {A} (e : exn) : Eff A := fun state => (Throw e, state).

Definition try_catch {A} (body : Eff A) (handler : exn -> Eff A) : Eff A :=
  fun state =>
    match body state with
    | (Normal a, state') => (Normal a, state')
    | (Throw e, state') => handler e state'
    end.

Definition lift {A} (c : completion A) : Eff A := fun state => (c, state).

Definition set (partial : NodesState -> Partial) : Eff unit :=
  fun state => (Normal tt, merge state (partial state)).

Definition get : Eff NodesState := fun state => (Normal state, state).

(** The state a computation leaves, and the value it completes with. *)
Definition exec {A} (m : Eff A) (state : NodesState) : NodesState :=
  snd (m state).
Definition outcome {A} (m : Eff A) (state : NodesState) : completion A :=
  fst (m state).

End Store.

Arguments NodesState : clear implicits.
Arguments Partial : clear implicits.
Arguments Eff : clear implicits.

Declare Scope eff_scope.
Delimit Scope eff_scope with eff.
Notation "x <- m ;; k" := (bind m (fun x => k))
  (at level 61, m at next level, right associativity) : eff_scope.
Notation "m ;; k" := (bind m (fun _ => k))
  (at level 61, right associativity) : eff_scope.

(** [array.forEach(f)] *)
Fixpoint forEach {Node Conn X : Type} (l : list X) (f : X -> Eff Node Conn unit)
  : Eff Node Conn unit :=
  match l with
  | [] => ret tt
  | x :: rest => (f x ;; forEach rest f)%eff
  end.

(** Fields the store itself reads. *)
Class HasId (A : Type) : Type := id_of : A -> string.
Class Endpoints (A : Type) : Type := {
  sourceId_of : A -> string;
  targetId_of : A -> string
}.

Section StoreActions.

Context {Node Conn : Type}.

(** [addNode: (node) => set((state) => ({ nodes: [...state.nodes, node] }))] *)
Definition addNode (node : Node) : Eff Node Conn unit :=
  set (fun state => only_nodes (nodes state ++ [node])).

(** [setNodes: (nodes) => set({ nodes })] *)
Definition setNodes (l : list Node) : Eff Node Conn unit :=
  set (fun _ => only_nodes l).

Definition updateNode `{HasId Node} (node : Node) : Eff Node Conn unit :=
  set (fun state =>
         only_nodes
           (map (fun n => if id_of n =? id_of node then node else n)
                (nodes state))).

Definition removeNode `{HasId Node} (id : string) : Eff Node Conn unit :=
  set (fun state =>
         only_nodes (filter (fun n => negb (id_of n =? id)) (nodes state))).

Definition addConnection (connection : Conn) : Eff Node Conn unit :=
  set (fun state => only_connections (connections state ++ [connection])).

Definition updateConnection `{HasId Conn} (connection : Conn) : Eff Node Conn unit :=
  set (fun state =>
         only_connections
           (map (fun conn =>
                   if id_of conn =? id_of connection then connection else conn)
                (connections state))).

Definition removeConnection `{HasId Conn} (id : string) : Eff Node Conn unit :=
  set (fun state =>
         only_connections
           (filter (fun conn => negb (id_of conn =? id)) (connections state))).

Definition getConnectionsByNodeId `{Endpoints Conn} (nodeId : string)
  : Eff Node Conn (list Conn) :=
  (state <- get ;;
   ret (filter (fun conn =>
                  (sourceId_of conn =? nodeId) || (targetId_of conn =? nodeId))
               (connections state)))%eff.

(** [clearConnections: () => set({ connections: [] })] *)
Definition clearConnections : Eff Node Conn unit :=
  set (fun _ => only_connections []).

End StoreActions.

(** ** The data model ([src/types]) *)

Inductive CustomNodeTypes : Type := carousel | richCard.

Record XYPosition : Type := { x : number; y : number }.

Record CardActions : Type := { value : string }.

Record CardItem : Type := {
  title : string;
  description : string;
  image : string;
  actions : list CardActions;
  selected : option bool
}.

Record CarouselData : Type := { cards : list CardItem }.

Module RichCardData.
Record t : Type := {
  title : string;
  description : string;
  image : string;
  actions : list CardActions
}.
End RichCardData.

(** [content: CarouselData | RichCardData] *)
Inductive Content : Type :=
| CarouselContent (c : CarouselData)
| RichCardContent (r : RichCardData.t).

(** The tag and the content are independent fields: nothing ties the tag to
    the shape of the content. *)
Module NodeDatum.
Record t : Type := { type : CustomNodeTypes; content : Content }.
End NodeDatum.

Record Measured : Type := { width : option number; height : option number }.

Module NodeData.
Record t : Type := {
  id : string;
  position : XYPosition;
  type : option string;
  data : NodeDatum.t;
  measured : option Measured;
  selected : option bool;
  dragging : option bool
}.
End NodeData.

(** The connect event of the visual layer ([Connection] of the flow library). *)
Module Connection.
Record t : Type := {
  source : string;
  target : string;
  sourceHandle : option string;
  targetHandle : option string
}.
End Connection.

(** The visual edge descriptor ([Edge] of the flow library): the fields the
    builder reads or writes.  A handle that is [None] is [null]. *)
Module Edge.
Record t : Type := {
  id : string;
  source : string;
  target : string;
  sourceHandle : option string;
  targetHandle : option string;
  type : option string;
  animated : option bool;
  style : option json;
  data : option json
}.
End Edge.

Module ConnectionData.
Record t : Type := {
  id : string;
  sourceId : string;
  targetId : string;
  sourcePosition : XYPosition;
  targetPosition : XYPosition;
  edgeData : Edge.t
}.
End ConnectionData.

#[global] Instance NodeData_HasId : HasId NodeData.t := NodeData.id.
#[global] Instance ConnectionData_HasId : HasId ConnectionData.t :=
  ConnectionData.id.
#[global] Instance ConnectionData_Endpoints : Endpoints ConnectionData.t :=
  {| sourceId_of := ConnectionData.sourceId;
     targetId_of := ConnectionData.targetId |}.

(** The editor's store. *)
Definition Store : Type := NodesState NodeData.t ConnectionData.t.

(** ** The connection deriver ([createConnectionData]) *)

Definition createConnectionData
  (sourceNode targetNode : NodeData.t) (edge : Edge.t) : ConnectionData.t :=
  {| ConnectionData.id := Edge.id edge;
     ConnectionData.sourceId := NodeData.id sourceNode;
     ConnectionData.targetId := NodeData.id targetNode;
     ConnectionData.sourcePosition := NodeData.position sourceNode;
     ConnectionData.targetPosition := NodeData.position targetNode;
     ConnectionData.edgeData := edge |}.

(** ** The builder's [onConnect] *)

(** [h || null]: the empty string is falsy. *)
Definition or_null (h : option string) : option string :=
  match h with
  | Some "" => None
  | other => other
  end.

(** [`${Date.now()}`]: a count of milliseconds printed in decimal. *)
Definition timestamp (now : N) : string :=
  NilZero.string_of_uint (N.to_uint now).

(** [`edge-${params.source}-${params.target}-${Date.now()}`] *)
Definition edge_id (params : Connection.t) (now : N) : string :=
  "edge-" ++ Connection.source params ++ "-" ++ Connection.target params
    ++ "-" ++ timestamp now.

(** [{...params, id, sourceHandle: ... || null, targetHandle: ... || null}] *)
Definition newEdge (params : Connection.t) (now : N) : Edge.t :=
  {| Edge.id := edge_id params now;
     Edge.source := Connection.source params;
     Edge.target := Connection.target params;
     Edge.sourceHandle := or_null (Connection.sourceHandle params);
     Edge.targetHandle := or_null (Connection.targetHandle params);
     Edge.type := None;
     Edge.animated := None;
     Edge.style := None;
     Edge.data := None |}.

Section Builder.

(** [addEdge] belongs to the flow library; the builder only passes the
    event and the visual edge list through it. *)
Variable addEdge : Connection.t -> list Edge.t -> list Edge.t.

(** [nodes] is the visual layer's node list and [eds] its edge list; [now]
    is the clock reading.  The result is the visual edge list that
    [setEdges] installs. *)
Definition onConnect (nodes : list NodeData.t) (eds : list Edge.t)
  (params : Connection.t) (now : N)
  : Eff NodeData.t ConnectionData.t (list Edge.t) :=
  let sourceNode :=
    find (fun node => NodeData.id node =? Connection.source params) nodes in
  let targetNode :=
    find (fun node => NodeData.id node =? Connection.target params) nodes in
  (match sourceNode, targetNode with
   | Some sourceNode, Some targetNode =>
       addConnection
         (createConnectionData sourceNode targetNode (newEdge params now))
   | _, _ => ret tt
   end ;;
   ret (addEdge params eds))%eff.

End Builder.

(** ** The carousel card editor ([addNewCarouselCard]) *)

(** [l.slice(start, end)] for integer arguments. *)
Definition slice {A : Type} (l : list A) (start finish : Z) : list A :=
  let len := Z.of_nat (List.length l) in
  let relative i := if (i <? 0)%Z then Z.max (len + i) 0 else Z.min i len in
  let k := relative start in
  let final := relative finish in
  firstn (Z.to_nat (Z.max (final - k) 0)) (skipn (Z.to_nat k) l).

(** [l.slice(start)] *)
Definition slice_from {A : Type} (l : list A) (start : Z) : list A :=
  slice l start (Z.of_nat (List.length l)).

Definition newCardItem : CardItem :=
  {| title := ""; description := ""; image := ""; actions := [];
     selected := None |}.

(** [id] and [data] are the props of the card component: the node id and the
    carousel content the visual layer rendered.  The node list the handler
    searches is the store's, read when the handler runs. *)
Definition addNewCarouselCard (id : string) (data : CarouselData)
  (currentIndex : Z) : Eff NodeData.t ConnectionData.t unit :=
  (state <- get ;;
   match find (fun node => NodeData.id node =? id) (nodes state) with
   | None => ret tt
   | Some selectedNode =>
       let updatedCards :=
         slice (cards data) 0 (currentIndex + 1)
           ++ [newCardItem]
           ++ slice_from (cards data) (currentIndex + 1) in
       let updatedNode :=
         {| NodeData.id := NodeData.id selectedNode;
            NodeData.position := NodeData.position selectedNode;
            NodeData.type := NodeData.type selectedNode;
            NodeData.data :=
              {| NodeDatum.type := NodeDatum.type (NodeData.data selectedNode);
                 NodeDatum.content :=
                   CarouselContent {| cards := updatedCards |} |};
            NodeData.measured := NodeData.measured selectedNode;
            NodeData.selected := NodeData.selected selectedNode;
            NodeData.dragging := NodeData.dragging selectedNode |} in
       updateNode updatedNode
   end)%eff.

(** ** The export / import panel *)

(** The panel works on whatever the store holds and on whatever the file
    contains: both sides are parsed JSON values. *)
Definition FlowStore : Type := NodesState json json.

(** [const flowData = { nodes, connections }]: the document that
    [JSON.stringify] writes to [chatbot-flow.json], as [JSON.parse] reads it
    back. *)
Definition flowData (state : FlowStore) : json :=
  JObject [("nodes", JArray (nodes state));
           ("connections", JArray (connections state))].

Definition handleExport : Eff json json json :=
  (state <- get ;; ret (flowData state))%eff.

Definition invalid_file_format : string :=
  "Invalid file format. Please upload a valid JSON file.".
Definition failed_to_read : string :=
  "Failed to read file. Please try again.".

(** [JSON.parse(content)]: the parsed document, or a [SyntaxError]. *)
Definition JSON_parse (parsed : option json) : Eff json json json :=
  match parsed with
  | Some importedData => ret importedData
  | None => throw SyntaxError
  end.

(** [reader.onload].  [parsed] is what [JSON.parse] makes of the file's text
    ([None] when it is not JSON); the result is the alert shown, if any. *)
Definition onload (parsed : option json) : Eff json json (option string) :=
  try_catch
    (importedData <- JSON_parse parsed ;;
     clearConnections ;;
     importedNodes <- lift (property importedData "nodes") ;;
     match truthy_array importedNodes with
     | Some l => setNodes l
     | None =>
         match isArray importedData with
         | Some l => setNodes l
         | None => throw (Error "Invalid nodes data structure")
         end
     end ;;
     importedConnections <- lift (property importedData "connections") ;;
     match truthy_array importedConnections with
     | Some l => forEach l (fun conn => addConnection conn)
     | None => ret tt
     end ;;
     ret None)%eff
    (fun _ => ret (Some invalid_file_format)).

(** What the file reader delivers for the selected file. *)
Inductive FileRead : Type :=
| ReadError
| ReadText (parsed : option json).

(** [handleFileChange]: no file selected, [reader.onerror], or
    [reader.onload]. *)
Definition handleFileChange (file : option FileRead)
  : Eff json json (option string) :=
  match file with
  | None => ret None
  | Some ReadError => ret (Some failed_to_read)
  | Some (ReadText parsed) => onload parsed
  end.

(** The three shapes of an imported document, in the order the
    specification lists them. *)
Definition has_nodes_array (doc : json) : bool :=
  match doc with
  | JObject ms =>
      match own_property "nodes" ms with
      | Some (JArray _) => true
      | _ => false
      end
  | _ => false
  end.

Definition is_bare_array (doc : json) : bool :=
  match doc with
  | JArray _ => true
  | _ => false
  end.

Definition shape3 (doc : json) : Prop :=
  has_nodes_array doc = false /\ is_bare_array doc = false.

(** ** Histories of node edits *)

Section History.

Context {Node Conn : Type} `{HasId Node}.

Inductive call : Type :=
| AddNode (node : Node)
| RemoveNode (id : string)
| UpdateNode (node : Node).

Definition perform (c : call) : Eff Node Conn unit :=
  match c with
  | AddNode node => addNode node
  | RemoveNode id => removeNode id
  | UpdateNode node => updateNode node
  end.

Definition run (calls : list call) : Eff Node Conn unit :=
  forEach calls perform.

(** The specification's reading of a history, call by call: a node that was
    added survives unless a later call removes its id, and it carries the
    content of the last later [updateNode] with its id, or its own content
    when there is none. *)
Definition removed_later (id : string) (later : list call) : bool :=
  existsb (fun c => match c with RemoveNode j => id =? j | _ => false end)
          later.

Definition updates_of (id : string) (later : list call) : list Node :=
  flat_map
    (fun c =>
       match c with
       | UpdateNode u => if id =? id_of u then [u] else []
       | _ => []
       end)
    later.

Definition latest (node : Node) (later : list call) : Node :=
  last (updates_of (id_of node) later) node.

Fixpoint surviving (calls : list call) : list Node :=
  match calls with
  | [] => []
  | AddNode node :: later =>
      if removed_later (id_of node) later
      then surviving later
      else latest node later :: surviving later
  | _ :: later => surviving later
  end.

(** What a history makes of the nodes that were in the store before it. *)
Definition carried (l : list Node) (calls : list call) : list Node :=
  map (fun n => latest n calls)
      (filter (fun n => negb (removed_later (id_of n) calls)) l).

End History.

Arguments call : clear implicits.

(** [Kept P l r]: [r] is [l] with exactly the elements that fail [P] left
    out, the others in their original order. *)
Inductive Kept {A : Type} (P : A -> Prop) : list A -> list A -> Prop :=
| Kept_nil : Kept P [] []
| Kept_take (a : A) (l r : list A) :
    P a -> Kept P l r -> Kept P (a :: l) (a :: r)
| Kept_drop (a : A) (l r : list A) :
    ~ P a -> Kept P l r -> Kept P (a :: l) r.

(** The store as it is created: [nodes: []], [connections: []]. *)
Definition empty_store {Node Conn : Type} : NodesState Node Conn :=
  {| nodes := []; connections := [] |}.

(** ** The builder's [onAdd] *)

Definition emptyCard : CardItem :=
  {| title := ""; description := ""; image := ""; actions := [];
     selected := None |}.

Definition newNodeContent (type : CustomNodeTypes) : Content :=
  match type with
  | carousel => CarouselContent {| cards := [emptyCard] |}
  | richCard =>
      RichCardContent
        {| RichCardData.title := ""; RichCardData.description := "";
           RichCardData.image := ""; RichCardData.actions := [] |}
  end.

Definition newNode (type : CustomNodeTypes) (now : N) : NodeData.t :=
  {| NodeData.id := timestamp now;
     NodeData.type := Some "customNode";
     NodeData.position := {| x := 0%Q; y := 0%Q |};
     NodeData.data :=
       {| NodeDatum.type := type;
          NodeDatum.content := newNodeContent type |};
     NodeData.measured := None;
     NodeData.selected := None;
     NodeData.dragging := None |}.

Definition onAdd (type : CustomNodeTypes) (now : N)
  : Eff NodeData.t ConnectionData.t unit :=
  addNode (newNode type now).

(** ** Array helpers of the editors *)

(** [l.map((a, index) => f(a, index))] *)
Fixpoint map_index_from {A B : Type} (f : A -> nat -> B) (start : nat)
  (l : list A) : list B :=
  match l with
  | [] => []
  | a :: rest => f a start :: map_index_from f (S start) rest
  end.

Definition map_index {A B : Type} (f : A -> nat -> B) (l : list A) : list B :=
  map_index_from f 0 l.

(** [l.filter((a, index) => p(a, index))] *)
Fixpoint filter_index_from {A : Type} (p : A -> nat -> bool) (start : nat)
  (l : list A) : list A :=
  match l with
  | [] => []
  | a :: rest =>
      if p a start
      then a :: filter_index_from p (S start) rest
      else filter_index_from p (S start) rest
  end.

Definition filter_index {A : Type} (p : A -> nat -> bool) (l : list A)
  : list A :=
  filter_index_from p 0 l.

(** [const copy = [...l]; copy[i] = v].  Writing past the end lengthens the
    array and leaves holes ([None]) between the old end and [i]. *)
Definition assign_index {A : Type} (l : list A) (i : nat) (v : A)
  : list (option A) :=
  map Some (firstn i l)
    ++ repeat None (i - List.length l)
    ++ [Some v]
    ++ map Some (skipn (S i) l).

(** An array without holes, as a list of its elements. *)
Fixpoint dense {A : Type} (l : list (option A)) : option (list A) :=
  match l with
  | [] => Some []
  | Some a :: rest => option_map (cons a) (dense rest)
  | None :: _ => None
  end.

(** A list of results, all of which are present. *)
Fixpoint all_present {A : Type} (l : list (option A)) : option (list A) :=
  match l with
  | [] => Some []
  | Some a :: rest => option_map (cons a) (all_present rest)
  | None :: _ => None
  end.

(** ** Object spreads of the editors *)

(** [{...selectedNode, data: {...selectedNode.data, content}}] *)
Definition withContent (selectedNode : NodeData.t) (content : Content)
  : NodeData.t :=
  {| NodeData.id := NodeData.id selectedNode;
     NodeData.position := NodeData.position selectedNode;
     NodeData.type := NodeData.type selectedNode;
     NodeData.data :=
       {| NodeDatum.type := NodeDatum.type (NodeData.data selectedNode);
          NodeDatum.content := content |};
     NodeData.measured := NodeData.measured selectedNode;
     NodeData.selected := NodeData.selected selectedNode;
     NodeData.dragging := NodeData.dragging selectedNode |}.

(** [{...card, actions}] *)
Definition withActions (card : CardItem) (acts : list CardActions) : CardItem :=
  {| title := title card; description := description card;
     image := image card; actions := acts; selected := selected card |}.

(** [{...card, image}] *)
Definition withImage (card : CardItem) (img : string) : CardItem :=
  {| title := title card; description := description card;
     image := img; actions := actions card; selected := selected card |}.

(** ** The carousel card editor, other handlers *)

Module CarouselCard.

(** Each handler takes the component's props [id] and [data] first.  An
    index is a position handed over by the [map] that renders the cards or
    the actions. *)

Definition addActionToCard (id : string) (data : CarouselData)
  (cardIndex : nat) : Eff NodeData.t ConnectionData.t unit :=
  (state <- get ;;
   match find (fun node => NodeData.id node =? id) (nodes state) with
   | None => ret tt
   | Some selectedNode =>
       updateNode
         (withContent selectedNode
            (CarouselContent
               {| cards :=
                    map_index
                      (fun card index =>
                         if (index =? cardIndex)%nat
                         then withActions card
                                (actions card ++ [{| value := "" |}])
                         else card)
                      (cards data) |}))
   end)%eff.

(** The cards [updateAction] builds; [None] when the write to
    [updatedActions[actionIndex]] leaves holes, which [CardActions[]] does
    not describe. *)
Definition updatedCards (data : CarouselData) (cardIndex actionIndex : nat)
  (v : string) : option (list CardItem) :=
  all_present
    (map_index
       (fun card index =>
          if (index =? cardIndex)%nat
          then option_map (withActions card)
                 (dense (assign_index (actions card) actionIndex
                           {| value := v |}))
          else Some card)
       (cards data)).

Definition updateAction (id : string) (data : CarouselData)
  (cardIndex actionIndex : nat) (v : string)
  : option (Eff NodeData.t ConnectionData.t unit) :=
  match updatedCards data cardIndex actionIndex v with
  | None => None
  | Some cs =>
      Some
        (state <- get ;;
         match find (fun node => NodeData.id node =? id) (nodes state) with
         | None => ret tt
         | Some selectedNode =>
             updateNode
               (withContent selectedNode (CarouselContent {| cards := cs |}))
         end)%eff
  end.

Definition deleteCard (id : string) (data : CarouselData) (cardIndex : nat)
  : Eff NodeData.t ConnectionData.t unit :=
  (state <- get ;;
   match find (fun node => NodeData.id node =? id) (nodes state) with
   | None => ret tt
   | Some selectedNode =>
       updateNode
         (withContent selectedNode
            (CarouselContent
               {| cards :=
                    filter_index
                      (fun _ index => negb (index =? cardIndex)%nat)
                      (cards data) |}))
   end)%eff.

Definition deleteActions (id : string) (data : CarouselData)
  (cardIndex actionIndex : nat) : Eff NodeData.t ConnectionData.t unit :=
  (state <- get ;;
   match find (fun node => NodeData.id node =? id) (nodes state) with
   | None => ret tt
   | Some selectedNode =>
       updateNode
         (withContent selectedNode
            (CarouselContent
               {| cards :=
                    map_index
                      (fun card index =>
                         if (index =? cardIndex)%nat
                         then withActions card
                                (filter_index
                                   (fun _ i => negb (i =? actionIndex)%nat)
                                   (actions card))
                         else card)
                      (cards data) |}))
   end)%eff.

Definition handleImageDelete (id : string) (data : CarouselData)
  (cardIndex : nat) : Eff NodeData.t ConnectionData.t unit :=
  (state <- get ;;
   match find (fun node => NodeData.id node =? id) (nodes state) with
   | None => ret tt
   | Some selectedNode =>
       updateNode
         (withContent selectedNode
            (CarouselContent
               {| cards :=
                    map_index
                      (fun card idx =>
                         if (idx =? cardIndex)%nat
                         then withImage card ""
                         else card)
                      (cards data) |}))
   end)%eff.

End CarouselCard.

(** ** The rich card editor *)

Module RichCard.

(** The keys of [RichCardData] that the component passes to [updateField]:
    the three that hold a string. *)
Inductive Field : Type := Title | Description | Image.

(** [{...data, [field]: value}] *)
Definition withField (data : RichCardData.t) (field : Field) (v : string)
  : RichCardData.t :=
  match field with
  | Title =>
      {| RichCardData.title := v;
         RichCardData.description := RichCardData.description data;
         RichCardData.image := RichCardData.image data;
         RichCardData.actions := RichCardData.actions data |}
  | Description =>
      {| RichCardData.title := RichCardData.title data;
         RichCardData.description := v;
         RichCardData.image := RichCardData.image data;
         RichCardData.actions := RichCardData.actions data |}
  | Image =>
      {| RichCardData.title := RichCardData.title data;
         RichCardData.description := RichCardData.description data;
         RichCardData.image := v;
         RichCardData.actions := RichCardData.actions data |}
  end.

(** [{...data, actions}] *)
Definition withActions (data : RichCardData.t) (acts : list CardActions)
  : RichCardData.t :=
  {| RichCardData.title := RichCardData.title data;
     RichCardData.description := RichCardData.description data;
     RichCardData.image := RichCardData.image data;
     RichCardData.actions := acts |}.

Definition addAction (id : string) (data : RichCardData.t)
  : Eff NodeData.t ConnectionData.t unit :=
  (state <- get ;;
   match find (fun node => NodeData.id node =? id) (nodes state) with
   | None => ret tt
   | Some selectedNode =>
       updateNode
         (withContent selectedNode
            (RichCardContent
               (withActions data
                  (RichCardData.actions data ++ [{| value := "" |}]))))
   end)%eff.

Definition updateField (id : string) (data : RichCardData.t) (field : Field)
  (v : string) : Eff NodeData.t ConnectionData.t unit :=
  (state <- get ;;
   match find (fun node => NodeData.id node =? id) (nodes state) with
   | None => ret tt
   | Some selectedNode =>
       updateNode
         (withContent selectedNode (RichCardContent (withField data field v)))
   end)%eff.

(** [None] when [updatedActions[index] = { value }] leaves holes. *)
Definition updateAction (id : string) (data : RichCardData.t) (index : nat)
  (v : string) : option (Eff NodeData.t ConnectionData.t unit) :=
  match dense (assign_index (RichCardData.actions data) index
                 {| value := v |}) with
  | None => None
  | Some updatedActions =>
      Some
        (state <- get ;;
         match find (fun node => NodeData.id node =? id) (nodes state) with
         | None => ret tt
         | Some selectedNode =>
             updateNode
               (withContent selectedNode
                  (RichCardContent (withActions data updatedActions)))
         end)%eff
  end.

Definition deleteCard (id : string) : Eff NodeData.t ConnectionData.t unit :=
  (state <- get ;;
   match find (fun node => NodeData.id node =? id) (nodes state) with
   | None => ret tt
   | Some _ => removeNode id
   end)%eff.

Definition deleteActions (id : string) (data : RichCardData.t) (index : nat)
  : Eff NodeData.t ConnectionData.t unit :=
  (state <- get ;;
   match find (fun node => NodeData.id node =? id) (nodes state) with
   | None => ret tt
   | Some selectedNode =>
       updateNode
         (withContent selectedNode
            (RichCardContent
               (withActions data
                  (filter_index (fun _ i => negb (i =? index)%nat)
                     (RichCardData.actions data)))))
   end)%eff.

Definition handleImageDelete (id : string) (data : RichCardData.t)
  : Eff NodeData.t ConnectionData.t unit :=
  updateField id data Image "".

End RichCard.

(** ** The builder: edges rebuilt from the store *)

(** One element of [loadedEdges]. *)
Definition loadedEdge (conn : ConnectionData.t) : Edge.t :=
  {| Edge.id := ConnectionData.id conn;
     Edge.source := ConnectionData.sourceId conn;
     Edge.target := ConnectionData.targetId conn;
     Edge.sourceHandle :=
       or_null (Edge.sourceHandle (ConnectionData.edgeData conn));
     Edge.targetHandle :=
       or_null (Edge.targetHandle (ConnectionData.edgeData conn));
     Edge.type := Edge.type (ConnectionData.edgeData conn);
     Edge.animated := Edge.animated (ConnectionData.edgeData conn);
     Edge.style := Edge.style (ConnectionData.edgeData conn);
     Edge.data := Edge.data (ConnectionData.edgeData conn) |}.

(** The effect on [[nodes, connections]]: [visible] is the visual layer's
    node list, [conns] the store's connections, [eds] the visual edge list;
    the result is the edge list after the effect. *)
Definition loadEdges (visible : list NodeData.t)
  (conns : list ConnectionData.t) (eds : list Edge.t) : list Edge.t :=
  if (0 <? List.length visible)%nat && (0 <? List.length conns)%nat
  then map loadedEdge conns
  else eds.

(** ** The add-node panel ([onAddNode]) *)


(** ** The panel's [handleLoadFlow] *)



(** A node whose tag names the shape of its content. *)
Definition well_tagged (node : NodeData.t) : bool :=
  match NodeDatum.type (NodeData.data node),
        NodeDatum.content (NodeData.data node) with
  | carousel, CarouselContent _ => true
  | richCard, RichCardContent _ => true
  | _, _ => false
  end.

(** The pattern every content edit ends in: look the node up by the
    component's id, give up if it is not there, otherwise hand [updateNode]
    a copy of it with the new content. *)
Definition replaceContent (id : string) (content : Content)
  : Eff NodeData.t ConnectionData.t unit :=
  (state <- get ;;
   match find (fun node => NodeData.id node =? id) (nodes state) with
   | None => ret tt
   | Some selectedNode => updateNode (withContent selectedNode content)
   end)%eff.

(** The content edits of the two card components, for given props and
    arguments: those that are always defined, and [updateAction] where the
    model has it. *)
Definition carousel_edits (id : string) (data : CarouselData)
  (currentIndex : Z) (cardIndex actionIndex : nat) (v : string)
  : list (Eff NodeData.t ConnectionData.t unit) :=
  [addNewCarouselCard id data currentIndex;
   CarouselCard.addActionToCard id data cardIndex;
   CarouselCard.deleteCard id data cardIndex;
   CarouselCard.deleteActions id data cardIndex actionIndex;
   CarouselCard.handleImageDelete id data cardIndex]
  ++ match CarouselCard.updateAction id data cardIndex actionIndex v with
     | Some edit => [edit]
     | None => []
     end.

Definition rich_edits (id : string) (data : RichCardData.t)
  (index : nat) (field : RichCard.Field) (v : string)
  : list (Eff NodeData.t ConnectionData.t unit) :=
  [RichCard.addAction id data;
   RichCard.updateField id data field v;
   RichCard.deleteActions id data index;
   RichCard.handleImageDelete id data]
  ++ match RichCard.updateAction id data index v with
     | Some edit => [edit]
     | None => []
     end.

Definition content_edits (id : string) (cdata : CarouselData)
  (rdata : RichCardData.t) (currentIndex : Z) (cardIndex actionIndex : nat)
  (field : RichCard.Field) (v : string)
  : list (Eff NodeData.t ConnectionData.t unit) :=
  carousel_edits id cdata currentIndex cardIndex actionIndex v
  ++ rich_edits id rdata actionIndex field v.

(** The content of the first node with a given id, if there is one: what
    the card component with that id is shown. *)
Definition contentOf (id : string) (store : Store) : option Content :=
  option_map (fun node => NodeDatum.content (NodeData.data node))
    (find (fun node => NodeData.id node =? id) (nodes store)).

(** * Properties *)

(** ** The store actions, for any element types *)

Section StoreFacts.

Context {Node Conn : Type} `{HasId Node} `{Endpoints Conn}.

Implicit Types (s : NodesState Node Conn) (n m : Node) (i : string).

Lemma nodes_addNode s n :
  nodes (exec (addNode n) s) = nodes s ++ [n].
Proof. reflexivity. Qed.

Lemma nodes_updateNode s n :
  nodes (exec (updateNode n) s)
  = map (fun m => if id_of m =? id_of n then n else m) (nodes s).
Proof. reflexivity. Qed.

Lemma nodes_removeNode s i :
  nodes (exec (removeNode i) s)
  = filter (fun m => negb (id_of m =? i)) (nodes s).
Proof. reflexivity. Qed.

Lemma connections_removeNode s i :
  connections (exec (removeNode (Conn := Conn) i) s) = connections s.
Proof. reflexivity. Qed.

Lemma perform_normal (c : call Node) s :
  perform c s = (Normal tt, exec (perform c) s).
Proof. destruct c; reflexivity. Qed.

Lemma exec_run_cons (c : call Node) (calls : list (call Node)) s :
  exec (run (c :: calls)) s = exec (run calls) (exec (perform c) s).
Proof.
  unfold run at 1, exec at 1; simpl forEach; unfold bind.
  rewrite perform_normal; reflexivity.
Qed.

Lemma Kept_filter {A : Type} (P : A -> Prop) (p : A -> bool) (l : list A) :
  (forall a, p a = true <-> P a) -> Kept P l (filter p l).
Proof.
  intros Hp; induction l as [|a l IH]; simpl.
  - constructor.
  - destruct (p a) eqn:E.
    + apply Kept_take; [apply Hp; exact E | exact IH].
    + apply Kept_drop; [|exact IH].
      intros Pa; apply Hp in Pa; congruence.
Qed.

Lemma endpoint_test (c : Conn) i :
  (sourceId_of c =? i) || (targetId_of c =? i) = true
  <-> sourceId_of c = i \/ targetId_of c = i.
Proof.
  rewrite orb_true_iff, !String.eqb_eq; reflexivity.
Qed.

Lemma last_cons_default {A : Type} (l : list A) (a d : A) :
  last (a :: l) d = last l a.
Proof.
  revert a d; induction l as [|b l IH]; intros a d; [reflexivity|].
  change (last (a :: b :: l) d) with (last (b :: l) d).
  rewrite (IH b d), (IH b a); reflexivity.
Qed.

End StoreFacts.

(** ** Histories of [addNode] / [removeNode] / [updateNode] calls *)

Section HistoryFacts.

Context {Node Conn : Type} `{HasId Node}.

Implicit Types (s : NodesState Node Conn) (n m u : Node) (i : string)
  (calls later : list (call Node)).

Lemma carried_nil l : carried l [] = l.
Proof.
  unfold carried; induction l as [|n l IH]; simpl; [reflexivity|].
  f_equal; exact IH.
Qed.

Lemma carried_app l l' calls :
  carried (l ++ l') calls = carried l calls ++ carried l' calls.
Proof. unfold carried; rewrite filter_app, map_app; reflexivity. Qed.

Lemma carried_add l n calls : carried l (AddNode n :: calls) = carried l calls.
Proof. reflexivity. Qed.

Lemma carried_remove l i calls :
  carried l (RemoveNode i :: calls)
  = carried (filter (fun m => negb (id_of m =? i)) l) calls.
Proof.
  unfold carried; induction l as [|n l IH]; [reflexivity|].
  cbn [filter].
  change (removed_later (id_of n) (RemoveNode i :: calls))
    with ((id_of n =? i) || removed_later (id_of n) calls).
  destruct (id_of n =? i); cbn [negb orb]; [exact IH|].
  cbn [filter].
  destruct (removed_later (id_of n) calls); cbn [negb]; [exact IH|].
  cbn [map]; f_equal; exact IH.
Qed.

Lemma latest_update n u calls :
  latest n (UpdateNode u :: calls)
  = latest (if id_of n =? id_of u then u else n) calls.
Proof.
  unfold latest; cbn [updates_of flat_map].
  destruct (id_of n =? id_of u) eqn:E.
  - apply String.eqb_eq in E.
    cbn [app]; rewrite last_cons_default, E; reflexivity.
  - reflexivity.
Qed.

Lemma id_replace n u :
  id_of (if id_of n =? id_of u then u else n) = id_of n.
Proof.
  destruct (id_of n =? id_of u) eqn:E; [|reflexivity].
  apply String.eqb_eq in E; congruence.
Qed.

Lemma carried_update l u calls :
  carried l (UpdateNode u :: calls)
  = carried (map (fun m => if id_of m =? id_of u then u else m) l) calls.
Proof.
  unfold carried; induction l as [|n l IH]; [reflexivity|].
  cbn [map filter].
  change (removed_later (id_of n) (UpdateNode u :: calls))
    with (removed_later (id_of n) calls).
  rewrite id_replace.
  destruct (removed_later (id_of n) calls); cbn [negb]; [exact IH|].
  cbn [map]; rewrite latest_update; f_equal; exact IH.
Qed.

Lemma nodes_run calls s :
  nodes (exec (run calls) s) = carried (nodes s) calls ++ surviving calls.
Proof.
  revert s; induction calls as [|c calls IH]; intros s.
  - cbn; rewrite carried_nil, app_nil_r; reflexivity.
  - rewrite exec_run_cons, IH; destruct c as [n|i|u]; cbn [perform].
    + rewrite nodes_addNode, carried_app, carried_add, <- app_assoc.
      f_equal; unfold carried; cbn [filter surviving].
      destruct (removed_later (id_of n) calls); reflexivity.
    + rewrite nodes_removeNode, carried_remove; reflexivity.
    + rewrite nodes_updateNode, carried_update; reflexivity.
Qed.

Lemma id_latest n later : id_of (latest n later) = id_of n.
Proof.
  unfold latest.
  assert (G : forall l d, id_of d = id_of n ->
                Forall (fun u => id_of u = id_of n) l ->
                id_of (last l d) = id_of n).
  { induction l as [|a l IH]; intros d Hd Hl; [exact Hd|].
    rewrite last_cons_default; inversion Hl; subst; apply IH; assumption. }
  apply G; [reflexivity|].
  induction later as [|c later IH]; cbn [updates_of flat_map]; [constructor|].
  apply Forall_app; split; [|exact IH].
  destruct c as [a|j|u]; try constructor.
  destruct (id_of n =? id_of u) eqn:E; constructor.
  - apply String.eqb_eq in E; congruence.
  - constructor.
Qed.

Lemma surviving_tail (c : call Node) calls m :
  In m (surviving calls) -> In m (surviving (c :: calls)).
Proof.
  destruct c as [n|j|u]; cbn [surviving]; try tauto.
  destruct (removed_later (id_of n) calls); [tauto|]; intros; right; assumption.
Qed.

Lemma surviving_ids calls i :
  In i (map id_of (surviving calls))
  <-> exists before n later,
        calls = before ++ AddNode n :: later
        /\ id_of n = i /\ removed_later i later = false.
Proof.
  induction calls as [|c calls IH].
  - split; [intros []|].
    intros (before & n & later & E & _); destruct before; discriminate.
  - split.
    + intros Hin.
      assert (Tail : In i (map id_of (surviving calls)) ->
                     exists before n later,
                       c :: calls = before ++ AddNode n :: later
                       /\ id_of n = i /\ removed_later i later = false).
      { intros Hi; apply IH in Hi; destruct Hi as (b & n & l & E & Hn & Hr).
        exists (c :: b), n, l; subst calls; auto. }
      destruct c as [n|j|u]; cbn [surviving] in Hin; auto.
      destruct (removed_later (id_of n) calls) eqn:R; auto.
      cbn [map In] in Hin; destruct Hin as [Hi|Hi]; auto.
      rewrite id_latest in Hi; subst i.
      exists [], n, calls; auto.
    + intros (before & n & later & E & Hn & Hr).
      destruct before as [|c' before]; cbn [app] in E.
      * inversion E; subst c calls i; cbn [surviving]; rewrite Hr.
        left; apply id_latest.
      * inversion E; subst c' calls.
        apply in_map_iff.
        assert (Hi : In i (map id_of (surviving (before ++ AddNode n :: later)))).
        { apply IH; exists before, n, later; auto. }
        apply in_map_iff in Hi; destruct Hi as (m & Hm & Hin).
        exists m; split; [exact Hm|]; apply surviving_tail; exact Hin.
Qed.

Lemma updateNode_absent s n :
  (forall m, In m (nodes s) -> id_of m <> id_of n) ->
  updateNode n s = (Normal tt, s).
Proof.
  intros Habsent; destruct s as [l cs].
  unfold updateNode, set, merge; cbn.
  do 2 f_equal.
  cbn in Habsent; induction l as [|m l IH]; [reflexivity|].
  cbn [map]; rewrite IH by (intros; apply Habsent; right; assumption).
  destruct (id_of m =? id_of n) eqn:E; [|reflexivity].
  apply String.eqb_eq in E; exfalso; apply (Habsent m); [left; reflexivity|exact E].
Qed.

(** C3.  Any finite history of [addNode], [removeNode] and [updateNode]
    calls, run on the empty store, leaves exactly the nodes that were added
    and whose id no later call removed, in the order they were added; each
    carries the content of the last later [updateNode] with its id, or its
    own content when no such call follows.  The ids present are exactly
    those added and not removed afterwards.  An [updateNode] whose id is on no
    node leaves the store as it was. *)
Theorem node_history_last_write_wins :
  (forall calls,
      run calls (@empty_store Node Conn)
      = (Normal tt, {| nodes := surviving calls; connections := [] |}))
  /\ (forall calls i,
        In i (map id_of (nodes (exec (run calls) (@empty_store Node Conn))))
        <-> exists before n later,
              calls = before ++ AddNode n :: later
              /\ id_of n = i /\ removed_later i later = false)
  /\ (forall s n,
        (forall m, In m (nodes s) -> id_of m <> id_of n) ->
        updateNode n s = (Normal tt, s)).
Proof.
  assert (Run : forall calls s,
             run calls s = (Normal tt, exec (run calls) s)
             /\ connections (exec (run calls) s) = connections s).
  { induction calls as [|c calls IH]; intros s; [split; reflexivity|].
    destruct (IH (exec (perform c) s)) as [E F]; split.
    - unfold exec at 1; unfold run in *; cbn [forEach]; unfold bind.
      rewrite perform_normal, E; reflexivity.
    - rewrite exec_run_cons, F; destruct c; reflexivity. }
  split; [|split].
  - intros calls; destruct (Run calls empty_store) as [E F].
    rewrite E; f_equal.
    pose proof (nodes_run calls empty_store) as Hn.
    destruct (exec (run calls) empty_store) as [l cs]; cbn in *.
    subst; reflexivity.
  - intros calls i; rewrite nodes_run; cbn [nodes empty_store carried filter map app].
    apply surviving_ids.
  - apply updateNode_absent.
Qed.

End HistoryFacts.

(** ** Queries and frame properties *)

Section ConnectionFacts.

Context {Node Conn : Type} `{HasId Node} `{Endpoints Conn}.

Implicit Types (s : NodesState Node Conn) (n m : Node) (c : Conn)
  (i x : string).

(** C7.  [getConnectionsByNodeId x] completes with exactly the connections
    whose [sourceId] or [targetId] is [x], in the order they have in the
    connection sequence, and leaves the store as it found it.  That order is
    the order of insertion: a connection added next comes last in the
    answer, if it is in it at all. *)
Theorem getConnectionsByNodeId_exact s x :
  exists r,
    getConnectionsByNodeId x s = (Normal r, s)
    /\ Kept (fun c => sourceId_of c = x \/ targetId_of c = x)
            (connections s) r
    /\ (forall c,
          In c r
          <-> In c (connections s)
              /\ (sourceId_of c = x \/ targetId_of c = x))
    /\ (forall c,
          outcome (addConnection c ;; getConnectionsByNodeId x)%eff s
          = Normal
              (r ++ if (sourceId_of c =? x) || (targetId_of c =? x)
                    then [c] else [])).
Proof.
  eexists; split; [reflexivity|]; split; [|split].
  - apply Kept_filter; intros c; apply endpoint_test.
  - intros c; rewrite filter_In, endpoint_test; reflexivity.
  - intros c; cbn; rewrite filter_app; reflexivity.
Qed.

(** C4.  [removeNode id] leaves the connection sequence as it was, so the
    query [getConnectionsByNodeId id] answers after the removal what it
    answered before it, and still returns every connection that has [id] as
    its source or its target. *)
Theorem removeNode_does_not_cascade s i :
  connections (exec (removeNode i) s) = connections s
  /\ outcome (removeNode i ;; getConnectionsByNodeId i)%eff s
     = outcome (getConnectionsByNodeId i) s
  /\ (forall c,
        In c (connections s) ->
        sourceId_of c = i \/ targetId_of c = i ->
        exists r,
          (removeNode i ;; getConnectionsByNodeId i)%eff s
          = (Normal r, exec (removeNode i) s)
          /\ In c r).
Proof.
  split; [reflexivity|]; split; [reflexivity|].
  intros c Hin Hend; eexists; split; [reflexivity|].
  cbn; apply filter_In; split; [exact Hin|]; apply endpoint_test; exact Hend.
Qed.

(** C10.  Also in a store where several nodes share one id:
    [updateNode n] puts [n] at every position that held a node with the id
    of [n] and leaves every other position as it was; [removeNode id] drops
    every node with that id and keeps the others in order. *)
Theorem duplicate_ids_are_all_touched s :
  (forall n,
      List.length (nodes (exec (updateNode (Conn := Conn) n) s))
      = List.length (nodes s)
      /\ forall k m,
          nth_error (nodes s) k = Some m ->
          (id_of m = id_of n ->
           nth_error (nodes (exec (updateNode (Conn := Conn) n) s)) k = Some n)
          /\ (id_of m <> id_of n ->
              nth_error (nodes (exec (updateNode (Conn := Conn) n) s)) k
              = Some m))
  /\ (forall i,
        Kept (fun m => id_of m <> i) (nodes s)
             (nodes (exec (removeNode (Conn := Conn) i) s))
        /\ forall m,
            In m (nodes (exec (removeNode (Conn := Conn) i) s))
            <-> In m (nodes s) /\ id_of m <> i).
Proof.
  split.
  - intros n; rewrite nodes_updateNode; split; [apply length_map|].
    intros k m Hk; rewrite nth_error_map, Hk; cbn [option_map]; split.
    + intros E; apply String.eqb_eq in E; rewrite E; reflexivity.
    + intros E; apply String.eqb_neq in E; rewrite E; reflexivity.
  - intros i; rewrite nodes_removeNode; split.
    + apply Kept_filter; intros m.
      rewrite negb_true_iff, String.eqb_neq; reflexivity.
    + intros m; rewrite filter_In, negb_true_iff, String.eqb_neq.
      reflexivity.
Qed.

End ConnectionFacts.

(** ** The connection deriver and [onConnect] *)

Lemma append_same_prefix (a suffix : string) :
  (a ++ suffix)%string = a -> suffix = "".
Proof.
  induction a as [|ch a IH]; cbn; [auto|].
  intros E; inversion E; auto.
Qed.

Lemma find_absent {A : Type} (p : A -> bool) (l : list A) :
  (forall a, In a l -> p a = false) -> find p l = None.
Proof.
  induction l as [|a l IH]; intros Hp; [reflexivity|]; cbn.
  rewrite (Hp a) by (left; reflexivity).
  apply IH; intros; apply Hp; right; assumption.
Qed.

(** C5, as the specification words it, fails: the derived connection does
    not carry the edge's id followed by a non-empty suffix.  For the source
    node, target node and edge used below its id is the edge's id itself. *)
Lemma createConnectionData_id_verbatim :
  ~ (forall sourceNode targetNode edge,
        exists suffix,
          suffix <> ""
          /\ ConnectionData.id
               (createConnectionData sourceNode targetNode edge)
             = (Edge.id edge ++ suffix)%string).
Proof.
  intros Hclaim.
  destruct (Hclaim
              (newNode carousel 1) (newNode richCard 2)
              (newEdge {| Connection.source := "1";
                          Connection.target := "2";
                          Connection.sourceHandle := None;
                          Connection.targetHandle := None |} 3))
    as (suffix & Hne & E).
  apply Hne.
  cbn [createConnectionData ConnectionData.id] in E.
  symmetry in E; exact (append_same_prefix _ _ E).
Qed.

(** C5, amended.  The deriver copies the id of the edge it is given; the
    uniqueness comes from [onConnect], which names the edge
    [edge-<source>-<target>-<clock reading>] before it derives the
    connection, and that connection is the one appended to the store. *)
Theorem connection_id_is_minted_by_onConnect :
  (forall sourceNode targetNode edge,
      ConnectionData.id (createConnectionData sourceNode targetNode edge)
      = Edge.id edge)
  /\ (forall addEdge visible eds params now sourceNode targetNode
             (store : Store),
        find (fun node => NodeData.id node =? Connection.source params)
             visible
        = Some sourceNode ->
        find (fun node => NodeData.id node =? Connection.target params)
             visible
        = Some targetNode ->
        exists connection,
          onConnect addEdge visible eds params now store
          = (Normal (addEdge params eds),
             {| nodes := nodes store;
                connections := connections store ++ [connection] |})
          /\ connection
             = createConnectionData sourceNode targetNode (newEdge params now)
          /\ ConnectionData.id connection
             = ("edge-" ++ Connection.source params ++ "-"
                  ++ Connection.target params ++ "-" ++ timestamp now)%string).
Proof.
  split; [reflexivity|].
  intros addEdge visible eds params now sourceNode targetNode store Hs Ht.
  eexists; split; [|split; reflexivity].
  unfold onConnect; rewrite Hs, Ht; reflexivity.
Qed.

(** C6.  When the source id or the target id of a connect event is the id
    of no node in the current node list, [onConnect] derives no connection
    and leaves the store, connection sequence included, as it was. *)
Theorem onConnect_skips_missing_endpoint
  addEdge visible eds params now (store : Store) :
  (forall node, In node visible ->
                NodeData.id node <> Connection.source params)
  \/ (forall node, In node visible ->
                   NodeData.id node <> Connection.target params) ->
  onConnect addEdge visible eds params now store
  = (Normal (addEdge params eds), store).
Proof.
  intros Hmissing; unfold onConnect.
  destruct Hmissing as [Hs|Ht].
  - rewrite (find_absent _ visible)
      by (intros a Ha; apply String.eqb_neq; apply Hs; exact Ha).
    reflexivity.
  - rewrite (find_absent (fun node => NodeData.id node =? Connection.target _))
      by (intros a Ha; apply String.eqb_neq; apply Ht; exact Ha).
    destruct (find _ visible); reflexivity.
Qed.

(** ** The carousel card editor *)

Lemma slice_prefix {A : Type} (l : list A) (k : nat) :
  k <= List.length l -> slice l 0 (Z.of_nat k) = firstn k l.
Proof.
  intros Hk; unfold slice; cbn [Z.ltb Z.compare].
  destruct (Z.of_nat k <? 0)%Z eqn:E; [apply Z.ltb_lt in E; lia|].
  rewrite !Z.min_l by lia.
  cbn [Z.to_nat skipn].
  replace (Z.to_nat (Z.max (Z.of_nat k - 0) 0)) with k by lia.
  reflexivity.
Qed.

Lemma slice_from_suffix {A : Type} (l : list A) (k : nat) :
  k <= List.length l -> slice_from l (Z.of_nat k) = skipn k l.
Proof.
  intros Hk; unfold slice_from, slice.
  destruct (Z.of_nat k <? 0)%Z eqn:E; [apply Z.ltb_lt in E; lia|].
  destruct (Z.of_nat (List.length l) <? 0)%Z eqn:F; [apply Z.ltb_lt in F; lia|].
  rewrite !Z.min_l by lia.
  rewrite Nat2Z.id; apply firstn_all2.
  rewrite length_skipn; lia.
Qed.

Lemma insert_after_positions {A : Type} (l : list A) (a : A) (k : nat) :
  k < List.length l ->
  let l' := firstn (S k) l ++ [a] ++ skipn (S k) l in
  List.length l' = S (List.length l)
  /\ (forall j, j <= k -> nth_error l' j = nth_error l j)
  /\ nth_error l' (S k) = Some a
  /\ (forall j, k < j -> nth_error l' (S j) = nth_error l j).
Proof.
  intros Hk l'; subst l'.
  assert (Lf : List.length (firstn (S k) l) = S k)
    by (rewrite length_firstn; lia).
  split; [|split; [|split]].
  - rewrite !length_app, Lf, length_skipn; cbn [List.length]; lia.
  - intros j Hj; rewrite nth_error_app1 by lia.
    rewrite nth_error_firstn.
    destruct (j <? S k)%nat eqn:E; [reflexivity|apply Nat.ltb_ge in E; lia].
  - rewrite nth_error_app2 by lia.
    rewrite Lf, Nat.sub_diag; reflexivity.
  - intros j Hj; rewrite nth_error_app2 by lia.
    rewrite Lf.
    replace (S j - S k) with (S (j - S k)) by lia.
    cbn [app nth_error]; rewrite nth_error_skipn.
    f_equal; lia.
Qed.

Lemma find_replace_found (id : string) (updated found : NodeData.t)
  (l : list NodeData.t) :
  NodeData.id updated = id ->
  find (fun node => NodeData.id node =? id) l = Some found ->
  find (fun node => NodeData.id node =? id)
       (map (fun n => if NodeData.id n =? NodeData.id updated
                      then updated else n) l)
  = Some updated.
Proof.
  intros Hid; rewrite Hid; induction l as [|n l IH]; [discriminate|].
  cbn [find map]; destruct (NodeData.id n =? id) eqn:E.
  - intros _; rewrite Hid, String.eqb_refl; reflexivity.
  - rewrite E; exact IH.
Qed.

(** C9.  When the store has a node with the card's id and [currentIndex] is
    the index of one of the cards shown, [addNewCarouselCard] gives that node
    a card sequence one longer: the cards up to and including
    [currentIndex] keep their places, the empty card
    [{title: "", description: "", image: "", actions: []}] follows at
    [currentIndex + 1], and the remaining cards follow it in order.  With a
    single card and index 0 the sequence becomes that card and the empty
    card. *)
Theorem addNewCarouselCard_inserts_after
  id data currentIndex (store : Store) selectedNode :
  find (fun node => NodeData.id node =? id) (nodes store)
  = Some selectedNode ->
  (0 <= currentIndex < Z.of_nat (List.length (cards data)))%Z ->
  exists updatedNode updatedCards,
    outcome (addNewCarouselCard id data currentIndex) store = Normal tt
    /\ connections (exec (addNewCarouselCard id data currentIndex) store)
       = connections store
    /\ find (fun node => NodeData.id node =? id)
            (nodes (exec (addNewCarouselCard id data currentIndex) store))
       = Some updatedNode
    /\ NodeDatum.content (NodeData.data updatedNode)
       = CarouselContent {| cards := updatedCards |}
    /\ List.length updatedCards = S (List.length (cards data))
    /\ (forall j, (Z.of_nat j <= currentIndex)%Z ->
                  nth_error updatedCards j = nth_error (cards data) j)
    /\ nth_error updatedCards (S (Z.to_nat currentIndex))
       = Some {| title := ""; description := ""; image := "";
                 actions := []; selected := None |}
    /\ (forall j, (currentIndex < Z.of_nat j)%Z ->
                  nth_error updatedCards (S j) = nth_error (cards data) j)
    /\ (forall card, cards data = [card] ->
                     updatedCards
                     = [card;
                        {| title := ""; description := ""; image := "";
                           actions := []; selected := None |}]).
Proof.
  intros Hfind Hidx.
  set (k := Z.to_nat currentIndex).
  assert (Hk : k < List.length (cards data)) by lia.
  assert (Ek : (currentIndex + 1)%Z = Z.of_nat (S k)) by lia.
  unfold addNewCarouselCard, outcome, exec, bind, get.
  rewrite Hfind, Ek, slice_prefix, slice_from_suffix by lia.
  destruct (insert_after_positions (cards data) newCardItem k Hk)
    as (Hlen & Hbefore & Hat & Hafter).
  eexists; exists (firstn (S k) (cards data) ++ [newCardItem]
                     ++ skipn (S k) (cards data)).
  split; [reflexivity|]; split; [reflexivity|]; split.
  - cbn [snd updateNode set merge only_nodes nodes nodes_field].
    apply (find_replace_found id _ selectedNode); [|exact Hfind].
    cbn [NodeData.id].
    apply find_some in Hfind; destruct Hfind as [_ E].
    apply String.eqb_eq in E; exact E.
  - split; [reflexivity|]; split; [exact Hlen|]; split; [|split; [|split]].
    + intros j Hj; apply Hbefore; lia.
    + exact Hat.
    + intros j Hj; apply Hafter; lia.
    + intros card Hcard; rewrite Hcard in *.
      cbn [List.length] in Hk.
      assert (k = 0) as -> by lia.
      reflexivity.
Qed.

(** ** Export and import *)

Lemma forEach_addConnection (l : list json) (state : FlowStore) :
  forEach l (fun conn => addConnection conn) state
  = (Normal tt,
     {| nodes := nodes state; connections := connections state ++ l |}).
Proof.
  revert state; induction l as [|conn l IH]; intros [ns cs].
  - cbn; rewrite app_nil_r; reflexivity.
  - cbn [forEach]; unfold bind.
    change (addConnection conn {| nodes := ns; connections := cs |})
      with (@Normal unit tt,
            {| nodes := ns; connections := cs ++ [conn] |});
      cbv iota.
    rewrite IH; cbn [nodes connections]; rewrite <- app_assoc; reflexivity.
Qed.

Lemma onload_with_nodes_array (doc : json) (ns : list json) (state : FlowStore) :
  property doc "nodes" = Normal (Some (JArray ns)) ->
  onload (Some doc) state
  = match truthy_array
            (match property doc "connections" with
             | Normal x => x
             | Throw _ => None
             end)
    with
    | Some cs => (Normal None, {| nodes := ns; connections := cs |})
    | None => (Normal None, {| nodes := ns; connections := [] |})
    end.
Proof.
  intros Hn; destruct doc as [| | | | |ms]; try discriminate.
  unfold onload, try_catch, bind, lift, JSON_parse, ret.
  cbn [clearConnections set merge only_connections connections_field
         nodes_field fst snd];
    rewrite Hn; cbn [truthy_array setNodes set merge only_nodes nodes_field
                       connections_field nodes connections property].
  destruct (truthy_array (own_property "connections" ms)) as [cs|];
    [|reflexivity].
  rewrite forEach_addConnection; reflexivity.
Qed.

(** C2.  Exporting a store state gives the document
    [{nodes: ..., connections: ...}] and leaves the store alone; importing
    that document, whatever the store holds at that moment, completes
    without an alert and leaves exactly the exported state: the same nodes
    and the same connections, each in the same order. *)
Theorem export_then_import_restores (S prior : FlowStore) :
  exists doc,
    handleExport S = (Normal doc, S)
    /\ doc = JObject [("nodes", JArray (nodes S));
                      ("connections", JArray (connections S))]
    /\ handleFileChange (Some (ReadText (Some doc))) prior = (Normal None, S).
Proof.
  eexists; split; [reflexivity|]; split; [reflexivity|].
  cbn [handleFileChange]; unfold flowData.
  rewrite (onload_with_nodes_array _ (nodes S)) by reflexivity.
  destruct S; reflexivity.
Qed.

(** C8.  Importing a document whose root is the bare array [[n1, n2]]
    completes without an alert and leaves the node sequence [[n1, n2]] and
    an empty connection sequence; the same holds for a bare array of any
    length. *)
Theorem import_bare_array :
  (forall n1 n2 (prior : FlowStore),
      handleFileChange (Some (ReadText (Some (JArray [n1; n2])))) prior
      = (Normal None, {| nodes := [n1; n2]; connections := [] |}))
  /\ (forall items (prior : FlowStore),
        handleFileChange (Some (ReadText (Some (JArray items)))) prior
        = (Normal None, {| nodes := items; connections := [] |})).
Proof.
  split; intros; reflexivity.
Qed.

(** C1, as the specification words it, fails: importing the document [{}]
    into a store that holds one node and one connection does not leave the
    store as it was. *)
Lemma import_shape3_changes_store :
  ~ (forall doc (prior : FlowStore),
        shape3 doc ->
        exec (handleFileChange (Some (ReadText (Some doc)))) prior = prior).
Proof.
  intros Hclaim.
  specialize (Hclaim (JObject [])
                {| nodes := [JObject [("id", JString "1")]];
                   connections := [JObject [("id", JString "e")]] |}).
  cbn in Hclaim.
  assert (Hshape : shape3 (JObject [])) by (split; reflexivity).
  specialize (Hclaim Hshape); discriminate.
Qed.

(** C1, amended.  When the imported document is neither an object with a
    [nodes] array nor a bare array, the import ends with the format alert;
    the node sequence is what it was before the import, and the connection
    sequence is empty, because the connections are cleared before the shape
    of the document is looked at. *)
Theorem import_shape3_keeps_nodes_clears_connections
  (doc : json) (prior : FlowStore) :
  shape3 doc ->
  handleFileChange (Some (ReadText (Some doc))) prior
  = (Normal (Some invalid_file_format),
     {| nodes := nodes prior; connections := [] |}).
Proof.
  intros [Hobj Harr]; destruct doc as [| | | | |ms];
    try reflexivity; [discriminate|].
  cbn [has_nodes_array] in Hobj.
  cbn [handleFileChange]; unfold onload, try_catch, bind, lift, JSON_parse, ret.
  cbn [clearConnections set merge only_connections connections_field
         nodes_field fst snd property].
  destruct (own_property "nodes" ms) as [[| | | | |]|];
    try reflexivity; discriminate.
Qed.

(** A file that cannot be read, or whose text is not JSON, changes nothing
    in the store. *)
Lemma unreadable_file_changes_nothing (prior : FlowStore) :
  handleFileChange (Some ReadError) prior = (Normal (Some failed_to_read), prior)
  /\ handleFileChange (Some (ReadText None)) prior
     = (Normal (Some invalid_file_format), prior)
  /\ handleFileChange None prior = (Normal None, prior).
Proof. repeat split. Qed.

(** ** The statements above at concrete stores *)

(** A history on the empty store: the second node is removed, the first
    keeps its last update, and the update of an id that was never added is
    lost. *)
Example history_example :
  let a := newNode carousel 1 in
  let a' := newNode richCard 1 in
  let b := newNode carousel 2 in
  let c := newNode carousel 3 in
  nodes (exec (run (Conn := ConnectionData.t)
                   [AddNode a; UpdateNode c; AddNode b; UpdateNode a';
                    RemoveNode "2"])
              empty_store)
  = [a'].
Proof. reflexivity. Qed.

Lemma import_shape3_witness :
  shape3 (JObject [("connections", JArray [JNull])])
  /\ handleFileChange
       (Some (ReadText (Some (JObject [("connections", JArray [JNull])]))))
       {| nodes := [JString "n"]; connections := [JString "c"] |}
     = (Normal (Some invalid_file_format),
        {| nodes := [JString "n"]; connections := [] |}).
Proof.
  assert (Hshape : shape3 (JObject [("connections", JArray [JNull])]))
    by (split; reflexivity).
  split; [exact Hshape|].
  exact (import_shape3_keeps_nodes_clears_connections _ _ Hshape).
Defined.

Lemma node_history_witness :
  (forall m, In m [newNode carousel 1] ->
             id_of m <> id_of (newNode richCard 2))
  /\ updateNode (newNode richCard 2)
       ({| nodes := [newNode carousel 1]; connections := [] |} : Store)
     = (Normal tt, {| nodes := [newNode carousel 1]; connections := [] |}).
Proof.
  assert (Habsent : forall m, In m [newNode carousel 1] ->
                              id_of m <> id_of (newNode richCard 2)).
  { intros m [<-|[]]; vm_compute; discriminate. }
  split; [exact Habsent|].
  exact (proj2 (proj2 (node_history_last_write_wins
                         (Node := NodeData.t) (Conn := ConnectionData.t)))
               {| nodes := [newNode carousel 1]; connections := [] |}
               (newNode richCard 2) Habsent).
Defined.

Lemma removeNode_does_not_cascade_witness :
  let link :=
    createConnectionData (newNode carousel 1) (newNode richCard 2)
      (newEdge {| Connection.source := "1"; Connection.target := "2";
                  Connection.sourceHandle := None;
                  Connection.targetHandle := None |} 3) in
  let store : Store :=
    {| nodes := [newNode carousel 1; newNode richCard 2];
       connections := [link] |} in
  exists r,
    (removeNode "1" ;; getConnectionsByNodeId "1")%eff store
    = (Normal r, exec (removeNode "1") store)
    /\ In link r.
Proof.
  cbv zeta.
  refine (proj2 (proj2 (removeNode_does_not_cascade _ "1")) _ _ _).
  - left; reflexivity.
  - left; reflexivity.
Defined.

Lemma connection_id_witness :
  let a := newNode carousel 1 in
  let b := newNode richCard 2 in
  let params := {| Connection.source := "1"; Connection.target := "2";
                   Connection.sourceHandle := Some "source-0";
                   Connection.targetHandle := Some "" |} in
  exists connection,
    onConnect (fun _ eds => eds) [a; b] [] params 1700000000123
              (empty_store : Store)
    = (Normal [], {| nodes := []; connections := [connection] |})
    /\ connection = createConnectionData a b (newEdge params 1700000000123)
    /\ ConnectionData.id connection = "edge-1-2-1700000000123".
Proof.
  cbv zeta.
  exact (proj2 connection_id_is_minted_by_onConnect
               (fun _ eds => eds)
               [newNode carousel 1; newNode richCard 2] []
               {| Connection.source := "1"; Connection.target := "2";
                  Connection.sourceHandle := Some "source-0";
                  Connection.targetHandle := Some "" |}
               1700000000123%N
               (newNode carousel 1) (newNode richCard 2)
               empty_store eq_refl eq_refl).
Defined.

Lemma onConnect_skips_witness :
  let params := {| Connection.source := "1"; Connection.target := "9";
                   Connection.sourceHandle := None;
                   Connection.targetHandle := None |} in
  let store : Store :=
    {| nodes := [newNode carousel 1]; connections := [] |} in
  onConnect (fun _ eds => eds) [newNode carousel 1] [] params 5 store
  = (Normal [], store).
Proof.
  cbv zeta.
  apply (onConnect_skips_missing_endpoint (fun _ eds => eds)).
  right; intros node [<-|[]]; vm_compute; discriminate.
Defined.

Lemma addNewCarouselCard_witness :
  let store : Store :=
    {| nodes := [newNode carousel 1]; connections := [] |} in
  exists updatedNode updatedCards,
    outcome (addNewCarouselCard "1" {| cards := [emptyCard] |} 0) store
    = Normal tt
    /\ connections (exec (addNewCarouselCard "1" {| cards := [emptyCard] |} 0)
                         store)
       = connections store
    /\ find (fun node => NodeData.id node =? "1")
            (nodes (exec (addNewCarouselCard "1" {| cards := [emptyCard] |} 0)
                         store))
       = Some updatedNode
    /\ NodeDatum.content (NodeData.data updatedNode)
       = CarouselContent {| cards := updatedCards |}
    /\ List.length updatedCards = 2
    /\ (forall j, (Z.of_nat j <= 0)%Z ->
                  nth_error updatedCards j = nth_error [emptyCard] j)
    /\ nth_error updatedCards 1
       = Some {| title := ""; description := ""; image := "";
                 actions := []; selected := None |}
    /\ (forall j, (0 < Z.of_nat j)%Z ->
                  nth_error updatedCards (S j) = nth_error [emptyCard] j)
    /\ (forall card, [emptyCard] = [card] ->
                     updatedCards
                     = [card;
                        {| title := ""; description := ""; image := "";
                           actions := []; selected := None |}]).
Proof.
  cbv zeta.
  refine (addNewCarouselCard_inserts_after
            "1" {| cards := [emptyCard] |} 0%Z
            {| nodes := [newNode carousel 1]; connections := [] |}
            (newNode carousel 1) _ _).
  - reflexivity.
  - cbn; lia.
Defined.

Lemma duplicate_ids_witness :
  let first := newNode carousel 7 in
  let second := newNode richCard 7 in
  let other := newNode carousel 8 in
  let store : Store :=
    {| nodes := [first; other; second]; connections := [] |} in
  nth_error (nodes (exec (updateNode second) store)) 0 = Some second
  /\ nth_error (nodes (exec (updateNode second) store)) 2 = Some second
  /\ nth_error (nodes (exec (updateNode second) store)) 1 = Some other
  /\ nodes (exec (removeNode "7") store) = [other].
Proof.
  cbv zeta.
  pose (store := {| nodes := [newNode carousel 7; newNode carousel 8;
                              newNode richCard 7];
                    connections := [] |} : Store).
  pose proof (proj2 (proj1 (duplicate_ids_are_all_touched store)
                           (newNode richCard 7))) as Hupd.
  split; [|split; [|split]].
  - exact (proj1 (Hupd 0 (newNode carousel 7) eq_refl) eq_refl).
  - exact (proj1 (Hupd 2 (newNode richCard 7) eq_refl) eq_refl).
  - refine (proj2 (Hupd 1 (newNode carousel 8) eq_refl) _).
    vm_compute; discriminate.
  - reflexivity.
Defined.

(** * Further properties of the code *)

(** ** The store *)

Section StoreLaws.

Context {Node Conn : Type} `{HasId Node} `{HasId Conn} `{Endpoints Conn}.

Implicit Types (s : NodesState Node Conn) (n m : Node) (c : Conn)
  (i j x : string).

Ltac same_store :=
  unfold exec, bind, updateNode, removeNode, addNode, addConnection,
    removeConnection, updateConnection, set, merge;
  cbn [fst snd nodes connections nodes_field connections_field only_nodes
         only_connections].

Lemma run_completes (calls : list (call Node)) s :
  run calls s = (Normal tt, exec (run calls) s)
  /\ connections (exec (run calls) s) = connections s.
Proof.
  revert s; induction calls as [|k calls IH]; intros s; [split; reflexivity|].
  destruct (IH (exec (perform k) s)) as [E F]; split.
  - unfold exec at 1; unfold run in *; cbn [forEach]; unfold bind.
    rewrite perform_normal, E; reflexivity.
  - rewrite exec_run_cons, F; destruct k; reflexivity.
Qed.

(** X1.  A history of node edits run on any store: it never throws, it leaves
    the connections alone, and the nodes it leaves are the nodes the store
    had, minus those whose id the history removes and each with the last
    update of its id, followed by the survivors among the nodes the history
    adds. *)
Theorem history_on_any_store (calls : list (call Node)) s :
  run calls s
  = (Normal tt,
     {| nodes := carried (nodes s) calls ++ surviving calls;
        connections := connections s |}).
Proof.
  destruct (run_completes calls s) as [E F]; rewrite E; f_equal.
  pose proof (nodes_run calls s) as Hn.
  destruct (exec (run calls) s) as [l cs]; cbn in *; subst; reflexivity.
Qed.

Lemma replace_ids n (l : list Node) :
  map id_of (map (fun m => if id_of m =? id_of n then n else m) l)
  = map id_of l.
Proof.
  rewrite map_map; apply map_ext; intros m; apply id_replace.
Qed.

Lemma NoDup_ids_filter (p : Node -> bool) (l : list Node) :
  NoDup (map id_of l) -> NoDup (map id_of (filter p l)).
Proof.
  induction l as [|m l IH]; cbn; [auto|].
  intros Hnd; inversion Hnd as [|? ? Hnotin Hrest]; subst.
  destruct (p m); cbn; [|auto].
  constructor; [|auto].
  intros Hin; apply Hnotin.
  apply in_map_iff in Hin; destruct Hin as (m' & E & Hm').
  apply filter_In in Hm'; apply in_map_iff; exists m'; tauto.
Qed.

Lemma NoDup_snoc {A : Type} (l : list A) (a : A) :
  NoDup (l ++ [a]) <-> NoDup l /\ ~ In a l.
Proof.
  induction l as [|b l IH]; cbn.
  - split; [intros _; split; [constructor|tauto]|intros _; repeat constructor; tauto].
  - rewrite !NoDup_cons_iff, IH, in_app_iff; cbn; intuition (subst; tauto).
Qed.

(** X2.  The ids in the store.  [updateNode] never changes the sequence of ids;
    [removeNode] keeps ids unique when they were; [addNode] keeps them
    unique exactly when the new node's id is not yet in the store, since it
    appends without looking. *)
Theorem unique_ids_invariant s :
  NoDup (map id_of (nodes s)) ->
  (forall n,
      map id_of (nodes (exec (updateNode (Conn := Conn) n) s))
      = map id_of (nodes s))
  /\ (forall i, NoDup (map id_of (nodes (exec (removeNode (Conn := Conn) i) s))))
  /\ (forall n,
        NoDup (map id_of (nodes (exec (addNode (Conn := Conn) n) s)))
        <-> ~ In (id_of n) (map id_of (nodes s))).
Proof.
  intros Hnd; split; [|split].
  - intros n; rewrite nodes_updateNode; apply replace_ids.
  - intros i; rewrite nodes_removeNode; apply NoDup_ids_filter; exact Hnd.
  - intros n; rewrite nodes_addNode, map_app; cbn [map].
    rewrite NoDup_snoc; tauto.
Qed.

Lemma filter_absent (i : string) (l : list Node) :
  (forall m, In m l -> id_of m <> i) ->
  filter (fun m => negb (id_of m =? i)) l = l.
Proof.
  induction l as [|m l IH]; intros Ha; [reflexivity|]; cbn.
  assert (E : (id_of m =? i) = false)
    by (apply String.eqb_neq; apply Ha; left; reflexivity).
  rewrite E; cbn; f_equal; apply IH; intros; apply Ha; right; assumption.
Qed.

(** X3.  Adding a node whose id is new and then removing that id gives the store
    back; removing an id that no node has changes nothing. *)
Theorem addNode_then_removeNode s n :
  (forall m, In m (nodes s) -> id_of m <> id_of n) ->
  (addNode n ;; removeNode (id_of n))%eff s = (Normal tt, s)
  /\ removeNode (id_of n) s = (Normal tt, s).
Proof.
  intros Hfresh; destruct s as [l cs]; cbn in Hfresh; split; same_store.
  - rewrite filter_app, (filter_absent _ l Hfresh); cbn.
    rewrite String.eqb_refl; cbn; rewrite app_nil_r; reflexivity.
  - rewrite (filter_absent _ l Hfresh); reflexivity.
Qed.

(** X4.  How the node actions compose: an update applied twice is an update
    applied once; of two updates with one id the later one wins; an update
    of an id just removed is lost; a removal undoes an update of its id;
    removals commute. *)
Theorem node_actions_compose s :
  (forall n,
      exec (updateNode n) (exec (updateNode n) s) = exec (updateNode n) s)
  /\ (forall n n',
        id_of n = id_of n' ->
        exec (updateNode n') (exec (updateNode n) s) = exec (updateNode n') s)
  /\ (forall n,
        exec (updateNode n) (exec (removeNode (id_of n)) s)
        = exec (removeNode (id_of n)) s)
  /\ (forall n,
        exec (removeNode (id_of n)) (exec (updateNode n) s)
        = exec (removeNode (id_of n)) s)
  /\ (forall i j,
        exec (removeNode i) (exec (removeNode j) s)
        = exec (removeNode j) (exec (removeNode i) s)).
Proof.
  destruct s as [l cs]; split; [|split; [|split; [|split]]].
  - intros n; same_store; f_equal.
    rewrite map_map; apply map_ext; intros m.
    destruct (id_of m =? id_of n) eqn:E; [|rewrite E; reflexivity].
    rewrite String.eqb_refl; reflexivity.
  - intros n n' Hid; same_store; f_equal.
    rewrite map_map; apply map_ext; intros m.
    destruct (id_of m =? id_of n) eqn:E; [|reflexivity].
    apply String.eqb_eq in E.
    rewrite (proj2 (String.eqb_eq (id_of n) (id_of n')) Hid).
    rewrite (proj2 (String.eqb_eq (id_of m) (id_of n')))
      by congruence.
    reflexivity.
  - intros n; same_store; f_equal.
    induction l as [|m l IH]; [reflexivity|]; cbn.
    destruct (id_of m =? id_of n) eqn:E; cbn; [exact IH|].
    rewrite E; f_equal; exact IH.
  - intros n; same_store; f_equal.
    induction l as [|m l IH]; [reflexivity|]; cbn.
    destruct (id_of m =? id_of n) eqn:E; cbn.
    + rewrite String.eqb_refl; cbn; exact IH.
    + rewrite E; cbn; f_equal; exact IH.
  - intros i j; same_store; f_equal.
    induction l as [|m l IH]; [reflexivity|]; cbn.
    destruct (id_of m =? j) eqn:Ej; destruct (id_of m =? i) eqn:Ei; cbn;
      rewrite ?Ej, ?Ei; cbn; rewrite ?IH; reflexivity.
Qed.

Lemma filter_absent_conn (i : string) (l : list Conn) :
  (forall c, In c l -> id_of c <> i) ->
  filter (fun c => negb (id_of c =? i)) l = l.
Proof.
  induction l as [|c l IH]; intros Ha; [reflexivity|]; cbn.
  assert (E : (id_of c =? i) = false)
    by (apply String.eqb_neq; apply Ha; left; reflexivity).
  rewrite E; cbn; f_equal; apply IH; intros; apply Ha; right; assumption.
Qed.

(** X5.  Connections: [removeConnection] leaves the nodes alone and narrows every
    answer of [getConnectionsByNodeId] to the connections with another id;
    after [clearConnections] every answer is empty; adding a connection
    whose id is new and removing that id gives the store back. *)
Theorem connection_actions_compose s :
  (forall i x,
      (removeConnection i ;; getConnectionsByNodeId x)%eff s
      = (Normal
           (filter (fun c => negb (id_of c =? i))
              (filter (fun c => (sourceId_of c =? x) || (targetId_of c =? x))
                 (connections s))),
         {| nodes := nodes s;
            connections :=
              filter (fun c => negb (id_of c =? i)) (connections s) |}))
  /\ (forall x,
        (clearConnections ;; getConnectionsByNodeId x)%eff s
        = (Normal [], {| nodes := nodes s; connections := [] |}))
  /\ (forall c,
        (forall c', In c' (connections s) -> id_of c' <> id_of c) ->
        (addConnection c ;; removeConnection (id_of c))%eff s = (Normal tt, s)).
Proof.
  destruct s as [l cs]; split; [|split].
  - intros i x; same_store; unfold getConnectionsByNodeId, bind, get, ret.
    cbn [connections]; do 2 f_equal.
    induction cs as [|c cs IH]; [reflexivity|]; cbn.
    destruct (id_of c =? i) eqn:Ei;
      destruct ((sourceId_of c =? x) || (targetId_of c =? x)) eqn:Ex;
      cbn; rewrite ?Ei, ?Ex; cbn; rewrite ?IH; reflexivity.
  - reflexivity.
  - intros c Hfresh; cbn in Hfresh; same_store.
    rewrite filter_app, (filter_absent_conn _ cs Hfresh); cbn.
    rewrite String.eqb_refl; cbn; rewrite app_nil_r; reflexivity.
Qed.


End StoreLaws.

(** ** Import, sample load *)

Lemma has_nodes_array_inv (doc : json) :
  has_nodes_array doc = true ->
  exists ms ns, doc = JObject ms /\ own_property "nodes" ms = Some (JArray ns).
Proof.
  destruct doc as [| | | | |ms]; try discriminate; cbn.
  destruct (own_property "nodes" ms) as [[| | | |ns|]|] eqn:E; try discriminate.
  intros _; exists ms, ns; auto.
Qed.

Lemma onload_shape3 (doc : json) (prior : FlowStore) :
  shape3 doc ->
  onload (Some doc) prior
  = (Normal (Some invalid_file_format),
     {| nodes := nodes prior; connections := [] |}).
Proof.
  intros [Hobj Harr]; destruct doc as [| | | | |ms];
    try reflexivity; [discriminate|].
  cbn [has_nodes_array] in Hobj.
  unfold onload, try_catch, bind, lift, JSON_parse, ret.
  cbn [clearConnections set merge only_connections connections_field
         nodes_field fst snd property].
  destruct (own_property "nodes" ms) as [[| | | | |]|];
    try reflexivity; discriminate.
Qed.

Lemma shape_cases (doc : json) :
  has_nodes_array doc = true \/ is_bare_array doc = true \/ shape3 doc.
Proof.
  unfold shape3; destruct (has_nodes_array doc), (is_bare_array doc); auto.
Qed.

Lemma onload_nodes_array ms ns (prior : FlowStore) :
  own_property "nodes" ms = Some (JArray ns) ->
  onload (Some (JObject ms)) prior
  = (Normal None,
     {| nodes := ns;
        connections :=
          match own_property "connections" ms with
          | Some (JArray cs) => cs
          | _ => []
          end |}).
Proof.
  intros Hn.
  rewrite (onload_with_nodes_array (JObject ms) ns)
    by (cbn; rewrite Hn; reflexivity).
  cbn [property].
  destruct (own_property "connections" ms) as [[| | | | |]|]; reflexivity.
Qed.

(** X7.  A document with a [nodes] array is always accepted: no alert, the nodes
    are the document's, and the connections are the document's
    [connections] when that is an array and none otherwise, so that a
    [connections] member of another kind is dropped without a word. *)
Theorem import_with_nodes_array ms ns (prior : FlowStore) :
  own_property "nodes" ms = Some (JArray ns) ->
  handleFileChange (Some (ReadText (Some (JObject ms)))) prior
  = (Normal None,
     {| nodes := ns;
        connections :=
          match own_property "connections" ms with
          | Some (JArray cs) => cs
          | _ => []
          end |}).
Proof.
  intros Hn; cbn [handleFileChange]; apply onload_nodes_array; exact Hn.
Qed.

(** X8.  [handleFileChange] never lets an exception out, and it alerts in exactly
    three cases: the file cannot be read, its text is not JSON, or the
    document has neither a [nodes] array nor an array at its root. *)
Theorem import_alerts (file : option FileRead) (prior : FlowStore) :
  outcome (handleFileChange file) prior
  = Normal
      match file with
      | None => None
      | Some ReadError => Some failed_to_read
      | Some (ReadText None) => Some invalid_file_format
      | Some (ReadText (Some doc)) =>
          if has_nodes_array doc || is_bare_array doc
          then None
          else Some invalid_file_format
      end.
Proof.
  destruct file as [[|[doc|]]|]; try reflexivity.
  unfold outcome; cbn [handleFileChange].
  destruct (shape_cases doc) as [Hn|[Ha|Hs]].
  - rewrite Hn; destruct (has_nodes_array_inv doc Hn) as (ms & ns & -> & E).
    rewrite (onload_nodes_array ms ns prior E); reflexivity.
  - rewrite Ha, orb_true_r; destruct doc; try discriminate; reflexivity.
  - rewrite (onload_shape3 doc prior Hs); destruct Hs as [-> ->]; reflexivity.
Qed.

(** X9.  Importing a file twice in a row leaves what importing it once leaves:
    connections do not pile up.  When the import is accepted, what it leaves
    does not depend on what the store held. *)
Theorem import_twice (file : option FileRead) (prior other : FlowStore) :
  exec (handleFileChange file) (exec (handleFileChange file) prior)
  = exec (handleFileChange file) prior
  /\ (outcome (handleFileChange file) prior = Normal None ->
      file <> None ->
      exec (handleFileChange file) prior = exec (handleFileChange file) other).
Proof.
  destruct file as [[|[doc|]]|]; try (split; [reflexivity|]).
  - discriminate.
  - unfold exec, outcome; cbn [handleFileChange].
    destruct (shape_cases doc) as [Hn|[Ha|Hs]].
    + destruct (has_nodes_array_inv doc Hn) as (ms & ns & -> & E).
      rewrite (onload_nodes_array ms ns prior E),
        (onload_nodes_array ms ns other E); cbn [fst snd].
      rewrite (onload_nodes_array ms ns _ E).
      split; reflexivity.
    + destruct doc; try discriminate; split; reflexivity.
    + rewrite !onload_shape3 by exact Hs; cbn [fst snd].
      split; [reflexivity|discriminate].
  - discriminate.
  - intros _ Hnone; exfalso; apply Hnone; reflexivity.
Qed.


(** ** The builder: new nodes, new connections, rebuilt edges *)

Lemma timestamp_inj (now now' : N) : timestamp now = timestamp now' -> now = now'.
Proof.
  unfold timestamp; intros E.
  assert (Hnn : forall n : N, N.to_uint n <> Decimal.Nil).
  { intros [|p]; [discriminate|apply DecimalPos.Unsigned.to_uint_nonnil]. }
  apply DecimalN.Unsigned.to_uint_inj.
  pose proof (NilZero.usu (N.to_uint now) (Hnn now)) as E1.
  pose proof (NilZero.usu (N.to_uint now') (Hnn now')) as E2.
  rewrite E in E1; rewrite E1 in E2; inversion E2; reflexivity.
Qed.

(** X11.  The ids [onAdd] gives out: two new nodes have the same id exactly when
    they were made at the same clock reading.  So ids stay unique when the
    reading is not yet the id of a node, and two nodes added within one
    millisecond share their id. *)
Theorem onAdd_ids (store : Store) :
  (forall type type' now now',
      NodeData.id (newNode type now) = NodeData.id (newNode type' now')
      <-> now = now')
  /\ (forall type now,
        NoDup (map NodeData.id (nodes store)) ->
        (forall node, In node (nodes store) ->
                      NodeData.id node <> timestamp now) ->
        NoDup (map NodeData.id (nodes (exec (onAdd type now) store))))
  /\ (forall type type' now,
        ~ NoDup (map NodeData.id
                   (nodes (exec (onAdd type now ;; onAdd type' now)%eff
                                store)))).
Proof.
  split; [|split].
  - intros type type' now now'; cbn [newNode NodeData.id]; split.
    + apply timestamp_inj.
    + intros ->; reflexivity.
  - intros type now Hnd Hfresh.
    change (nodes (exec (onAdd type now) store))
      with (nodes store ++ [newNode type now]).
    rewrite map_app; cbn [map]; apply NoDup_snoc; split; [exact Hnd|].
    intros Hin; apply in_map_iff in Hin; destruct Hin as (node & E & Hn).
    exact (Hfresh node Hn E).
  - intros type type' now.
    change (nodes (exec (onAdd type now ;; onAdd type' now)%eff store))
      with ((nodes store ++ [newNode type now]) ++ [newNode type' now]).
    rewrite map_app; cbn [map]; rewrite NoDup_snoc.
    intros [_ Hnotin]; apply Hnotin.
    rewrite map_app; apply in_or_app; right; left; reflexivity.
Qed.

Lemma or_null_twice (h : option string) : or_null (or_null h) = or_null h.
Proof. destruct h as [[|ch rest]|]; reflexivity. Qed.

Lemma find_id (visible : list NodeData.t) (i : string) (node : NodeData.t) :
  find (fun n => NodeData.id n =? i) visible = Some node ->
  NodeData.id node = i /\ In node visible.
Proof.
  intros Hf; apply find_some in Hf; destruct Hf as [Hin E].
  apply String.eqb_eq in E; auto.
Qed.

(** X12.  After a connect event between two nodes of the visual layer, the new
    connection has the event's endpoints as its [sourceId] and [targetId]
    and the two nodes' positions at that moment, and it comes last in what
    [getConnectionsByNodeId] answers for its source and for its target. *)
Theorem onConnect_then_query
  addEdge visible eds params now sourceNode targetNode (store : Store) :
  find (fun node => NodeData.id node =? Connection.source params) visible
  = Some sourceNode ->
  find (fun node => NodeData.id node =? Connection.target params) visible
  = Some targetNode ->
  exists connection,
    connections (exec (onConnect addEdge visible eds params now) store)
    = connections store ++ [connection]
    /\ ConnectionData.sourceId connection = Connection.source params
    /\ ConnectionData.targetId connection = Connection.target params
    /\ ConnectionData.sourcePosition connection = NodeData.position sourceNode
    /\ ConnectionData.targetPosition connection = NodeData.position targetNode
    /\ (forall x,
          x = Connection.source params \/ x = Connection.target params ->
          outcome (onConnect addEdge visible eds params now ;;
                   getConnectionsByNodeId x)%eff store
          = Normal
              (filter (fun conn =>
                         (ConnectionData.sourceId conn =? x)
                         || (ConnectionData.targetId conn =? x))
                      (connections store)
               ++ [connection])).
Proof.
  intros Hs Ht.
  destruct (find_id _ _ _ Hs) as [Is _], (find_id _ _ _ Ht) as [It _].
  exists (createConnectionData sourceNode targetNode (newEdge params now)).
  unfold onConnect, exec, outcome; rewrite Hs, Ht.
  repeat split; try assumption.
  intros x Hx; cbn.
  rewrite filter_app; cbn; rewrite Is, It.
  destruct Hx as [-> | ->]; rewrite String.eqb_refl, ?orb_true_r; reflexivity.
Qed.

(** X13.  The edge list the builder rebuilds from the store.  It is rebuilt only
    when the visual layer has a node and the store has a connection;
    otherwise the edges stay, also when the store's connections have just
    been cleared.  A rebuild gives one edge per connection, in order, with
    the connection's id; and for a connection that [onConnect] has just
    stored it gives back the very edge [onConnect] made. *)
Theorem loadEdges_mirrors_store
  addEdge visible eds params now sourceNode targetNode (store : Store) :
  find (fun node => NodeData.id node =? Connection.source params) visible
  = Some sourceNode ->
  find (fun node => NodeData.id node =? Connection.target params) visible
  = Some targetNode ->
  loadEdges visible
    (connections (exec (onConnect addEdge visible eds params now) store)) eds
  = map loadedEdge (connections store) ++ [newEdge params now]
  /\ (forall conns,
        conns <> [] ->
        map Edge.id (loadEdges visible conns eds)
        = map ConnectionData.id conns)
  /\ loadEdges visible [] eds = eds
  /\ (forall conns, loadEdges [] conns eds = eds).
Proof.
  intros Hs Ht.
  destruct (find_id _ _ _ Hs) as [Is Hin], (find_id _ _ _ Ht) as [It _].
  assert (Hv : (0 <? List.length visible)%nat = true)
    by (destruct visible; [destruct Hin|reflexivity]).
  split; [|split; [|split]].
  - unfold onConnect, exec; rewrite Hs, Ht; cbn [snd bind].
    unfold loadEdges; rewrite Hv.
    change (connections
              (snd ((addConnection
                       (createConnectionData sourceNode targetNode
                          (newEdge params now)) ;; ret (addEdge params eds))%eff
                      store)))
      with (connections store
              ++ [createConnectionData sourceNode targetNode
                    (newEdge params now)]).
    rewrite length_app, Nat.add_comm; cbn [List.length Nat.add Nat.ltb Nat.leb andb].
    rewrite map_app; cbn [map]; do 2 f_equal.
    unfold loadedEdge, createConnectionData, newEdge; cbn.
    rewrite !or_null_twice, Is, It; reflexivity.
  - intros conns Hne; unfold loadEdges; rewrite Hv.
    destruct conns as [|c conns]; [congruence|].
    cbn [List.length Nat.ltb Nat.leb andb]; rewrite map_map; reflexivity.
  - unfold loadEdges; rewrite andb_false_r; reflexivity.
  - reflexivity.
Qed.

(** ** The add-node panel *)


(** ** The card editors: what every content edit does to the store *)

Lemma replaceContent_absent id content (store : Store) :
  find (fun node => NodeData.id node =? id) (nodes store) = None ->
  replaceContent id content store = (Normal tt, store).
Proof.
  intros Hf; unfold replaceContent, bind, get; rewrite Hf; reflexivity.
Qed.

Lemma replaceContent_found id content (store : Store) selectedNode :
  find (fun node => NodeData.id node =? id) (nodes store) = Some selectedNode ->
  replaceContent id content store
  = (Normal tt,
     {| nodes :=
          map (fun n => if NodeData.id n =? id
                        then withContent selectedNode content else n)
              (nodes store);
        connections := connections store |}).
Proof.
  intros Hf; unfold replaceContent, bind, get; rewrite Hf.
  destruct (find_id _ _ _ Hf) as [E _].
  unfold updateNode, set, merge; cbn; rewrite E; reflexivity.
Qed.

Lemma carousel_edits_replace id data currentIndex cardIndex actionIndex v
  edit :
  In edit (carousel_edits id data currentIndex cardIndex actionIndex v) ->
  exists cs, edit = replaceContent id (CarouselContent {| cards := cs |}).
Proof.
  unfold carousel_edits; rewrite in_app_iff; intros [Hin|Hin].
  - cbn [In] in Hin.
    repeat (destruct Hin as [<-|Hin]; [eexists; reflexivity|]).
    destruct Hin.
  - unfold CarouselCard.updateAction in Hin.
    destruct (CarouselCard.updatedCards data cardIndex actionIndex v);
      [|destruct Hin].
    destruct Hin as [<-|[]]; eexists; reflexivity.
Qed.

Lemma rich_edits_replace id data index field v edit :
  In edit (rich_edits id data index field v) ->
  exists r, edit = replaceContent id (RichCardContent r).
Proof.
  unfold rich_edits; rewrite in_app_iff; intros [Hin|Hin].
  - cbn [In] in Hin.
    repeat (destruct Hin as [<-|Hin]; [eexists; reflexivity|]).
    destruct Hin.
  - unfold RichCard.updateAction in Hin.
    destruct (dense _); [|destruct Hin].
    destruct Hin as [<-|[]]; eexists; reflexivity.
Qed.

Lemma content_edits_replace id cdata rdata currentIndex cardIndex actionIndex
  field v edit :
  In edit (content_edits id cdata rdata currentIndex cardIndex actionIndex
             field v) ->
  exists content, edit = replaceContent id content.
Proof.
  unfold content_edits; rewrite in_app_iff; intros [Hin|Hin].
  - destruct (carousel_edits_replace _ _ _ _ _ _ _ Hin) as [cs ->].
    eexists; reflexivity.
  - destruct (rich_edits_replace _ _ _ _ _ _ Hin) as [r ->].
    eexists; reflexivity.
Qed.

Lemma find_absent_iff (id : string) (l : list NodeData.t) :
  find (fun node => NodeData.id node =? id) l = None
  <-> forall node, In node l -> NodeData.id node <> id.
Proof.
  split.
  - intros Hf node Hin; apply String.eqb_neq.
    exact (find_none _ _ Hf node Hin).
  - intros Ha; apply find_absent; intros a Hin.
    apply String.eqb_neq; apply Ha; exact Hin.
Qed.

Lemma unique_by_id (l : list NodeData.t) (a b : NodeData.t) :
  NoDup (map NodeData.id l) -> In a l -> In b l ->
  NodeData.id a = NodeData.id b -> a = b.
Proof.
  induction l as [|c l IH]; cbn; [tauto|].
  intros Hnd [Ha|Ha] [Hb|Hb] E; inversion Hnd as [|? ? Hnot Hrest]; subst.
  - reflexivity.
  - exfalso; apply Hnot; rewrite E; apply in_map; exact Hb.
  - exfalso; apply Hnot; rewrite <- E; apply in_map; exact Ha.
  - apply IH; assumption.
Qed.

(** X15.  Every content edit of the card editors completes without an exception
    and leaves the graph as it was: the same connections and the same
    sequence of node ids.  When ids are unique the positions stay too (with
    a shared id, every node of that id becomes a copy of the first one).
    When no node has the component's id, the edit changes nothing at
    all. *)
Theorem content_edits_keep_the_graph
  id cdata rdata currentIndex cardIndex actionIndex field v edit
  (store : Store) :
  In edit (content_edits id cdata rdata currentIndex cardIndex actionIndex
             field v) ->
  exists store',
    edit store = (Normal tt, store')
    /\ connections store' = connections store
    /\ map NodeData.id (nodes store') = map NodeData.id (nodes store)
    /\ (NoDup (map NodeData.id (nodes store)) ->
        map NodeData.position (nodes store')
        = map NodeData.position (nodes store))
    /\ ((forall node, In node (nodes store) -> NodeData.id node <> id) ->
        store' = store).
Proof.
  intros Hin; destruct (content_edits_replace _ _ _ _ _ _ _ _ _ Hin)
    as [content ->].
  destruct (find (fun node => NodeData.id node =? id) (nodes store))
    as [selectedNode|] eqn:Hf.
  - rewrite (replaceContent_found _ _ _ _ Hf); eexists; split; [reflexivity|].
    destruct (find_id _ _ _ Hf) as [Eid Hsel].
    cbn [nodes connections]; split; [reflexivity|]; split; [|split].
    + rewrite map_map; apply map_ext_in; intros n _.
      destruct (NodeData.id n =? id) eqn:E; [|reflexivity].
      apply String.eqb_eq in E; cbn; congruence.
    + intros Hnd; rewrite map_map; apply map_ext_in; intros n Hn.
      destruct (NodeData.id n =? id) eqn:E; [|reflexivity].
      apply String.eqb_eq in E.
      rewrite (unique_by_id _ n selectedNode Hnd Hn Hsel) by congruence.
      reflexivity.
    + intros Ha; exfalso; exact (Ha selectedNode Hsel Eid).
  - rewrite (replaceContent_absent _ _ _ Hf); eexists; split; [reflexivity|].
    repeat split; reflexivity.
Qed.

Lemma withContent_twice selectedNode content content' :
  withContent (withContent selectedNode content) content'
  = withContent selectedNode content'.
Proof. reflexivity. Qed.

Lemma replaceContent_twice id content content' (store : Store) :
  exec (replaceContent id content') (exec (replaceContent id content) store)
  = exec (replaceContent id content') store.
Proof.
  destruct (find (fun node => NodeData.id node =? id) (nodes store))
    as [selectedNode|] eqn:Hf.
  - unfold exec at 2; rewrite (replaceContent_found _ _ _ _ Hf); cbn [snd].
    destruct (find_id _ _ _ Hf) as [Eid _]; subst id.
    assert (Hf' : find (fun node =>
                          NodeData.id node =? NodeData.id selectedNode)
                    (map (fun n => if NodeData.id n =? NodeData.id selectedNode
                                   then withContent selectedNode content
                                   else n) (nodes store))
                  = Some (withContent selectedNode content)).
    { apply (find_replace_found (NodeData.id selectedNode)
               (withContent selectedNode content) selectedNode);
        [reflexivity|exact Hf]. }
    unfold exec.
    rewrite (replaceContent_found _ content'
               {| nodes := _; connections := connections store |} _ Hf'),
      (replaceContent_found _ _ _ _ Hf); cbn [snd nodes connections].
    f_equal; rewrite map_map; apply map_ext; intros n.
    destruct (NodeData.id n =? NodeData.id selectedNode) eqn:E;
      [|rewrite E; reflexivity].
    cbn [withContent NodeData.id]; rewrite String.eqb_refl.
    reflexivity.
  - unfold exec; rewrite (replaceContent_absent _ content _ Hf); cbn [snd].
    reflexivity.
Qed.

(** X16.  The content an edit writes is built from the component's props, not
    from what the store holds: of two edits made from the same component,
    one after the other, only the later one shows in the store. *)
Theorem later_content_edit_wins
  id cdata rdata currentIndex cardIndex actionIndex field v
  cdata' rdata' currentIndex' cardIndex' actionIndex' field' v'
  edit edit' (store : Store) :
  In edit (content_edits id cdata rdata currentIndex cardIndex actionIndex
             field v) ->
  In edit' (content_edits id cdata' rdata' currentIndex' cardIndex'
              actionIndex' field' v') ->
  exec edit' (exec edit store) = exec edit' store.
Proof.
  intros Hin Hin'.
  destruct (content_edits_replace _ _ _ _ _ _ _ _ _ Hin) as [content ->].
  destruct (content_edits_replace _ _ _ _ _ _ _ _ _ Hin') as [content' ->].
  apply replaceContent_twice.
Qed.

Lemma withContent_same (node : NodeData.t) :
  withContent node (NodeDatum.content (NodeData.data node)) = node.
Proof. destruct node as [i p t [tag c] ms sl dr]; reflexivity. Qed.

Lemma replaceContent_tags id content (store : Store) selectedNode :
  find (fun node => NodeData.id node =? id) (nodes store) = Some selectedNode ->
  well_tagged (withContent selectedNode content) = true ->
  Forall (fun node => well_tagged node = true) (nodes store) ->
  Forall (fun node => well_tagged node = true)
         (nodes (exec (replaceContent id content) store)).
Proof.
  intros Hf Hw Hall; unfold exec.
  rewrite (replaceContent_found _ _ _ _ Hf); cbn [snd nodes].
  apply Forall_map; revert Hall; apply Forall_impl; intros n Hn.
  destruct (NodeData.id n =? id); assumption.
Qed.

(** X17.  The tag of a node names the shape of its content, and stays so: [onAdd]
    makes such nodes, an edit by the carousel editor keeps the store that
    way when the node it finds is tagged [carousel], and an edit by the rich
    card editor when the node it finds is tagged [richCard]. *)
Theorem tags_match_content (store : Store) :
  Forall (fun node => well_tagged node = true) (nodes store) ->
  (forall type now,
      Forall (fun node => well_tagged node = true)
             (nodes (exec (onAdd type now) store)))
  /\ (forall id data currentIndex cardIndex actionIndex v edit selectedNode,
        find (fun node => NodeData.id node =? id) (nodes store)
        = Some selectedNode ->
        NodeDatum.type (NodeData.data selectedNode) = carousel ->
        In edit (carousel_edits id data currentIndex cardIndex actionIndex v) ->
        Forall (fun node => well_tagged node = true)
               (nodes (exec edit store)))
  /\ (forall id data index field v edit selectedNode,
        find (fun node => NodeData.id node =? id) (nodes store)
        = Some selectedNode ->
        NodeDatum.type (NodeData.data selectedNode) = richCard ->
        In edit (rich_edits id data index field v) ->
        Forall (fun node => well_tagged node = true)
               (nodes (exec edit store))).
Proof.
  intros Hall; split; [|split].
  - intros type now.
    change (nodes (exec (onAdd type now) store))
      with (nodes store ++ [newNode type now]).
    apply Forall_app; split; [exact Hall|].
    constructor; [destruct type; reflexivity|constructor].
  - intros id data currentIndex cardIndex actionIndex v edit selectedNode
           Hf Htag Hin.
    destruct (carousel_edits_replace _ _ _ _ _ _ _ Hin) as [cs ->].
    apply (replaceContent_tags _ _ _ selectedNode); try assumption.
    unfold well_tagged; cbn; rewrite Htag; reflexivity.
  - intros id data index field v edit selectedNode Hf Htag Hin.
    destruct (rich_edits_replace _ _ _ _ _ _ Hin) as [r ->].
    apply (replaceContent_tags _ _ _ selectedNode); try assumption.
    unfold well_tagged; cbn; rewrite Htag; reflexivity.
Qed.

(** X18.  The rich card's [deleteCard] does what [removeNode] does, in every
    store: its look-up of the node changes nothing.  The connections of the
    removed node stay in the store. *)
Theorem RichCard_deleteCard_is_removeNode id (store : Store) :
  RichCard.deleteCard id store = removeNode id store
  /\ connections (exec (RichCard.deleteCard id) store) = connections store.
Proof.
  assert (E : RichCard.deleteCard id store = removeNode id store).
  { unfold RichCard.deleteCard, bind, get.
    destruct (find (fun node => NodeData.id node =? id) (nodes store))
      as [selectedNode|] eqn:Hf; [reflexivity|].
    destruct store as [l cs]; unfold removeNode, set, merge, ret; cbn.
    cbn in Hf; rewrite (filter_absent (H := NodeData_HasId) id l);
      [reflexivity|].
    apply find_absent_iff; exact Hf. }
  split; [exact E|]; unfold exec; rewrite E; reflexivity.
Qed.

(** ** The card editors: cards and actions *)

Lemma map_index_from_nth {A B : Type} (f : A -> nat -> B) (l : list A) :
  forall start k,
    nth_error (map_index_from f start l) k
    = option_map (fun a => f a (start + k)) (nth_error l k).
Proof.
  induction l as [|a l IH]; intros start [|k]; cbn; try reflexivity.
  - rewrite Nat.add_0_r; reflexivity.
  - rewrite IH; cbn; rewrite Nat.add_succ_r; reflexivity.
Qed.

Lemma map_index_nth {A B : Type} (f : A -> nat -> B) (l : list A) (k : nat) :
  nth_error (map_index f l) k = option_map (fun a => f a k) (nth_error l k).
Proof. unfold map_index; rewrite map_index_from_nth; reflexivity. Qed.

Lemma map_index_from_length {A B : Type} (f : A -> nat -> B) (l : list A) :
  forall start, List.length (map_index_from f start l) = List.length l.
Proof. induction l as [|a l IH]; intros start; cbn; [|rewrite IH]; reflexivity. Qed.

Lemma filter_index_from_keeps {A : Type} (l : list A) :
  forall start t,
    t < start ->
    filter_index_from (fun _ i => negb (i =? t)%nat) start l = l.
Proof.
  induction l as [|a l IH]; intros start t Ht; cbn; [reflexivity|].
  destruct (start =? t)%nat eqn:E; [apply Nat.eqb_eq in E; lia|].
  cbn; f_equal; apply IH; lia.
Qed.

Lemma filter_index_from_drops {A : Type} (l : list A) :
  forall start k,
    filter_index_from (fun _ i => negb (i =? start + k)%nat) start l
    = firstn k l ++ skipn (S k) l.
Proof.
  induction l as [|a l IH]; intros start k; cbn.
  - destruct k; reflexivity.
  - destruct k as [|k].
    + rewrite Nat.add_0_r, Nat.eqb_refl; cbn.
      apply filter_index_from_keeps; lia.
    + destruct (start =? start + S k)%nat eqn:E;
        [apply Nat.eqb_eq in E; lia|].
      cbn; f_equal.
      replace (start + S k) with (S start + k) by lia.
      apply IH.
Qed.

Lemma filter_index_drops {A : Type} (l : list A) (k : nat) :
  filter_index (fun _ i => negb (i =? k)%nat) l = firstn k l ++ skipn (S k) l.
Proof. exact (filter_index_from_drops l 0 k). Qed.

Lemma drop_positions {A : Type} (l : list A) (k : nat) :
  let l' := firstn k l ++ skipn (S k) l in
  (k < List.length l -> S (List.length l') = List.length l)
  /\ (forall j, j < k -> nth_error l' j = nth_error l j)
  /\ (forall j, k <= j -> nth_error l' j = nth_error l (S j))
  /\ (List.length l <= k -> l' = l).
Proof.
  cbv zeta; split; [|split; [|split]].
  - intros Hk; rewrite length_app, length_firstn, length_skipn; lia.
  - intros j Hj; destruct (Nat.le_gt_cases (List.length l) j) as [Hl|Hl].
    + rewrite (proj2 (nth_error_None l j) Hl).
      apply nth_error_None.
      rewrite length_app, length_firstn, length_skipn; lia.
    + rewrite nth_error_app1 by (rewrite length_firstn; lia).
      rewrite nth_error_firstn.
      destruct (j <? k)%nat eqn:E; [reflexivity|apply Nat.ltb_ge in E; lia].
  - intros j Hj; destruct (Nat.le_gt_cases (List.length l) k) as [Hl|Hl].
    + rewrite (proj2 (nth_error_None l (S j))) by lia.
      apply nth_error_None.
      rewrite length_app, length_firstn, length_skipn; lia.
    + rewrite nth_error_app2 by (rewrite length_firstn; lia).
      rewrite length_firstn, nth_error_skipn; f_equal; lia.
  - intros Hl; rewrite firstn_all2, skipn_all2, app_nil_r by lia.
    reflexivity.
Qed.

Lemma put_positions {A : Type} (l : list A) (v : A) (i : nat) :
  i < List.length l ->
  let l' := firstn i l ++ [v] ++ skipn (S i) l in
  List.length l' = List.length l
  /\ nth_error l' i = Some v
  /\ (forall j, j <> i -> nth_error l' j = nth_error l j).
Proof.
  intros Hi; cbv zeta.
  assert (Lf : List.length (firstn i l) = i) by (rewrite length_firstn; lia).
  split; [|split].
  - rewrite !length_app, Lf, length_skipn; cbn; lia.
  - rewrite nth_error_app2, Lf, Nat.sub_diag by lia; reflexivity.
  - intros j Hj; destruct (Nat.lt_ge_cases j i) as [Hlt|Hge].
    + rewrite nth_error_app1 by lia.
      rewrite nth_error_firstn.
      destruct (j <? i)%nat eqn:E; [reflexivity|apply Nat.ltb_ge in E; lia].
    + rewrite nth_error_app2 by lia; rewrite Lf.
      replace (j - i) with (S (j - S i)) by lia.
      cbn [app nth_error]; rewrite nth_error_skipn; f_equal; lia.
Qed.

Lemma dense_map_Some {A : Type} (l : list A) : dense (map Some l) = Some l.
Proof. induction l as [|a l IH]; cbn; [|rewrite IH]; reflexivity. Qed.

Lemma dense_app_Some {A : Type} (l : list A) (r : list (option A)) :
  dense (map Some l ++ r) = option_map (app l) (dense r).
Proof.
  induction l as [|a l IH]; cbn.
  - destruct (dense r); reflexivity.
  - rewrite IH; destruct (dense r); reflexivity.
Qed.

Lemma dense_assign {A : Type} (l : list A) (i : nat) (v : A) :
  i <= List.length l ->
  dense (assign_index l i v) = Some (firstn i l ++ [v] ++ skipn (S i) l).
Proof.
  intros Hi; unfold assign_index.
  replace (i - List.length l) with 0 by lia; cbn [repeat app].
  rewrite dense_app_Some; cbn [dense]; rewrite dense_map_Some; reflexivity.
Qed.

Lemma dense_assign_holes {A : Type} (l : list A) (i : nat) (v : A) :
  List.length l < i -> dense (assign_index l i v) = None.
Proof.
  intros Hi; unfold assign_index; rewrite dense_app_Some.
  replace (i - List.length l) with (S (i - S (List.length l))) by lia.
  reflexivity.
Qed.

Lemma all_present_map_index_from {A : Type} (F : A -> nat -> option A)
  (l : list A) :
  forall start,
    (forall k a, nth_error l k = Some a -> F a (start + k) <> None) ->
    all_present (map_index_from F start l)
    = Some (map_index_from
              (fun a i => match F a i with Some b => b | None => a end)
              start l).
Proof.
  induction l as [|a l IH]; intros start HF; cbn; [reflexivity|].
  pose proof (HF 0 a eq_refl) as H0; rewrite Nat.add_0_r in H0.
  destruct (F a start) as [b|]; [|congruence].
  rewrite IH; [reflexivity|].
  intros k a' Hk; specialize (HF (S k) a' Hk).
  rewrite Nat.add_succ_r in HF; exact HF.
Qed.

Lemma contentOf_replaceContent id content (store : Store) selectedNode :
  find (fun node => NodeData.id node =? id) (nodes store) = Some selectedNode ->
  contentOf id (exec (replaceContent id content) store) = Some content.
Proof.
  intros Hf; unfold contentOf, exec.
  rewrite (replaceContent_found _ _ _ _ Hf); cbn [snd nodes].
  destruct (find_id _ _ _ Hf) as [Eid _]; subst id.
  pose proof (find_replace_found (NodeData.id selectedNode)
                (withContent selectedNode content) selectedNode (nodes store)
                eq_refl Hf) as Hf'.
  cbn [withContent NodeData.id] in Hf'; rewrite Hf'; reflexivity.
Qed.

(** X19.  [addActionToCard]: the carousel shown gets, on the card at [cardIndex],
    one more action with the empty value at the end; every other card, and
    the number of cards, stay.  An index that is no card's changes no
    card. *)
Theorem addActionToCard_appends id data cardIndex (store : Store)
  selectedNode :
  find (fun node => NodeData.id node =? id) (nodes store) = Some selectedNode ->
  exists cs,
    contentOf id (exec (CarouselCard.addActionToCard id data cardIndex) store)
    = Some (CarouselContent {| cards := cs |})
    /\ List.length cs = List.length (cards data)
    /\ (forall card,
          nth_error (cards data) cardIndex = Some card ->
          nth_error cs cardIndex
          = Some {| title := title card; description := description card;
                    image := image card;
                    actions := actions card ++ [{| value := "" |}];
                    selected := selected card |})
    /\ (forall k, k <> cardIndex -> nth_error cs k = nth_error (cards data) k)
    /\ (List.length (cards data) <= cardIndex -> cs = cards data).
Proof.
  intros Hf; eexists; split.
  - change (CarouselCard.addActionToCard id data cardIndex)
      with (replaceContent id
              (CarouselContent
                 {| cards :=
                      map_index
                        (fun card index =>
                           if (index =? cardIndex)%nat
                           then withActions card
                                  (actions card ++ [{| value := "" |}])
                           else card)
                        (cards data) |})).
    apply (contentOf_replaceContent _ _ _ _ Hf).
  - assert (Hother : forall k, k <> cardIndex ->
                nth_error
                  (map_index
                     (fun card index =>
                        if (index =? cardIndex)%nat
                        then withActions card
                               (actions card ++ [{| value := "" |}])
                        else card) (cards data)) k
                = nth_error (cards data) k).
    { intros k Hk; rewrite map_index_nth.
      apply Nat.eqb_neq in Hk; rewrite Hk.
      destruct (nth_error (cards data) k); reflexivity. }
    split; [apply map_index_from_length|]; split; [|split].
    + intros card Hc; rewrite map_index_nth, Hc; cbn [option_map].
      rewrite Nat.eqb_refl; reflexivity.
    + exact Hother.
    + intros Hlen; apply nth_error_ext; intros k.
      destruct (Nat.eq_dec k cardIndex) as [->|Hk]; [|apply Hother; exact Hk].
      rewrite map_index_nth, (proj2 (nth_error_None _ _) Hlen); reflexivity.
Qed.

(** X20.  The carousel's [deleteCard]: the card at [cardIndex] goes, the cards
    before it keep their places and those after it move up by one; an index
    that is no card's removes nothing.  Nothing keeps a last card back:
    deleting the only card leaves a carousel without cards. *)
Theorem deleteCard_removes_one id data cardIndex (store : Store)
  selectedNode :
  find (fun node => NodeData.id node =? id) (nodes store) = Some selectedNode ->
  exists cs,
    contentOf id (exec (CarouselCard.deleteCard id data cardIndex) store)
    = Some (CarouselContent {| cards := cs |})
    /\ (cardIndex < List.length (cards data) ->
        S (List.length cs) = List.length (cards data))
    /\ (forall j, j < cardIndex -> nth_error cs j = nth_error (cards data) j)
    /\ (forall j, cardIndex <= j ->
                  nth_error cs j = nth_error (cards data) (S j))
    /\ (List.length (cards data) <= cardIndex -> cs = cards data)
    /\ (forall card, cards data = [card] -> cardIndex = 0 -> cs = []).
Proof.
  intros Hf; eexists; split.
  - change (CarouselCard.deleteCard id data cardIndex)
      with (replaceContent id
              (CarouselContent
                 {| cards :=
                      filter_index
                        (fun _ index => negb (index =? cardIndex)%nat)
                        (cards data) |})).
    apply (contentOf_replaceContent _ _ _ _ Hf).
  - rewrite filter_index_drops.
    destruct (drop_positions (cards data) cardIndex) as (H1 & H2 & H3 & H4).
    repeat (split; [assumption|]).
    intros card -> ->; reflexivity.
Qed.

Lemma replaceContent_same id (store : Store) selectedNode :
  find (fun node => NodeData.id node =? id) (nodes store) = Some selectedNode ->
  NoDup (map NodeData.id (nodes store)) ->
  exec (replaceContent id (NodeDatum.content (NodeData.data selectedNode)))
       store
  = store.
Proof.
  intros Hf Hnd; unfold exec.
  rewrite (replaceContent_found _ _ _ _ Hf); cbn [snd].
  destruct (find_id _ _ _ Hf) as [Eid Hsel].
  destruct store as [l cs]; cbn [nodes connections] in *; f_equal.
  rewrite withContent_same.
  rewrite <- (map_id l) at 2; apply map_ext_in; intros n Hn.
  destruct (NodeData.id n =? id) eqn:E; [|reflexivity].
  apply String.eqb_eq in E; symmetry.
  apply (unique_by_id l n selectedNode Hnd Hn Hsel); congruence.
Qed.

(** X21.  Inserting a card and deleting it again.  In a store with unique ids,
    where the component shows what the store holds for its node,
    [addNewCarouselCard] after a card, followed by [deleteCard] of the card
    just inserted (made from the content the store then holds), gives the
    store back. *)
Theorem deleteCard_undoes_addNewCarouselCard
  id data currentIndex (store : Store) selectedNode data' :
  NoDup (map NodeData.id (nodes store)) ->
  find (fun node => NodeData.id node =? id) (nodes store) = Some selectedNode ->
  NodeDatum.content (NodeData.data selectedNode) = CarouselContent data ->
  (0 <= currentIndex < Z.of_nat (List.length (cards data)))%Z ->
  contentOf id (exec (addNewCarouselCard id data currentIndex) store)
  = Some (CarouselContent data') ->
  exec (CarouselCard.deleteCard id data' (S (Z.to_nat currentIndex)))
       (exec (addNewCarouselCard id data currentIndex) store)
  = store.
Proof.
  intros Hnd Hf Hcontent Hidx Hshown.
  set (k := Z.to_nat currentIndex) in *.
  assert (Ek : (currentIndex + 1)%Z = Z.of_nat (S k)) by lia.
  change (addNewCarouselCard id data currentIndex)
    with (replaceContent id
            (CarouselContent
               {| cards :=
                    slice (cards data) 0 (currentIndex + 1)
                      ++ [newCardItem]
                      ++ slice_from (cards data) (currentIndex + 1) |})) in *.
  rewrite (contentOf_replaceContent _ _ _ _ Hf) in Hshown.
  injection Hshown as Hshown; subst data'.
  change (CarouselCard.deleteCard id ?d ?i)
    with (replaceContent id
            (CarouselContent
               {| cards :=
                    filter_index (fun _ index => negb (index =? i)%nat)
                      (cards d) |})).
  rewrite replaceContent_twice; cbn [cards].
  rewrite filter_index_drops, Ek, slice_prefix, slice_from_suffix by lia.
  assert (Hk : S k <= List.length (cards data)) by lia.
  assert (Lf : List.length (firstn (S k) (cards data)) = S k)
    by (rewrite length_firstn; lia).
  rewrite firstn_app, Lf, Nat.sub_diag, firstn_O, app_nil_r.
  rewrite <- Lf at 1; rewrite firstn_all.
  rewrite skipn_app, Lf.
  rewrite (skipn_all2 (firstn (S k) (cards data))) by lia.
  replace (S (S k) - S k) with 1 by lia; cbn [app skipn].
  rewrite firstn_skipn.
  replace {| cards := cards data |} with data by (destruct data; reflexivity).
  rewrite <- Hcontent; apply replaceContent_same; assumption.
Qed.

Lemma find_after_replaceContent id content (store : Store) selectedNode :
  find (fun node => NodeData.id node =? id) (nodes store) = Some selectedNode ->
  find (fun node => NodeData.id node =? id)
       (nodes (exec (replaceContent id content) store))
  = Some (withContent selectedNode content).
Proof.
  intros Hf; unfold exec.
  rewrite (replaceContent_found _ _ _ _ Hf); cbn [snd nodes].
  destruct (find_id _ _ _ Hf) as [Eid _]; subst id.
  pose proof (find_replace_found (NodeData.id selectedNode)
                (withContent selectedNode content) selectedNode (nodes store)
                eq_refl Hf) as Hf'.
  cbn [withContent NodeData.id] in Hf'; exact Hf'.
Qed.

(** X22.  The carousel's [updateAction] on an action that exists: the action at
    [actionIndex] of the card at [cardIndex] gets the new value; the other
    actions of that card, its other fields, the other cards and all counts
    stay. *)
Theorem CarouselCard_updateAction_sets
  id data cardIndex actionIndex v (store : Store) selectedNode card :
  find (fun node => NodeData.id node =? id) (nodes store) = Some selectedNode ->
  nth_error (cards data) cardIndex = Some card ->
  actionIndex < List.length (actions card) ->
  exists edit cs acts,
    CarouselCard.updateAction id data cardIndex actionIndex v = Some edit
    /\ contentOf id (exec edit store)
       = Some (CarouselContent {| cards := cs |})
    /\ List.length cs = List.length (cards data)
    /\ nth_error cs cardIndex
       = Some {| title := title card; description := description card;
                 image := image card; actions := acts;
                 selected := selected card |}
    /\ List.length acts = List.length (actions card)
    /\ nth_error acts actionIndex = Some {| value := v |}
    /\ (forall j, j <> actionIndex ->
                  nth_error acts j = nth_error (actions card) j)
    /\ (forall k, k <> cardIndex -> nth_error cs k = nth_error (cards data) k).
Proof.
  intros Hf Hcard Hai.
  set (F := fun (c : CardItem) (index : nat) =>
              if (index =? cardIndex)%nat
              then option_map (withActions c)
                     (dense (assign_index (actions c) actionIndex
                               {| value := v |}))
              else Some c).
  assert (HF : forall k a, nth_error (cards data) k = Some a ->
                           F a (0 + k) <> None).
  { intros k a Hk; unfold F; cbn [Nat.add].
    destruct (k =? cardIndex)%nat eqn:E; [|discriminate].
    apply Nat.eqb_eq in E; subst k.
    assert (a = card) by congruence; subst a.
    rewrite dense_assign by lia; discriminate. }
  pose proof (all_present_map_index_from F (cards data) 0 HF) as Hall.
  destruct (put_positions (actions card) {| value := v |} actionIndex Hai)
    as (Hlen & Hat & Hother).
  eexists; eexists;
    exists (firstn actionIndex (actions card) ++ [{| value := v |}]
              ++ skipn (S actionIndex) (actions card)).
  split; [|split; [|split; [|split; [|split; [|split; [|split]]]]]].
  - unfold CarouselCard.updateAction, CarouselCard.updatedCards, map_index.
    fold F; rewrite Hall; reflexivity.
  - apply (contentOf_replaceContent _ _ _ _ Hf).
  - apply map_index_from_length.
  - rewrite map_index_from_nth, Hcard; cbn [option_map Nat.add]; unfold F.
    rewrite Nat.eqb_refl, dense_assign by lia; reflexivity.
  - exact Hlen.
  - exact Hat.
  - exact Hother.
  - intros k Hk; rewrite map_index_from_nth; cbn [Nat.add]; unfold F.
    apply Nat.eqb_neq in Hk; rewrite Hk.
    destruct (nth_error (cards data) k); reflexivity.
Qed.

(** X23.  The actions of a rich card.  [addAction] appends one action with the
    empty value and keeps the other fields; [updateAction] on an action that
    exists sets its value and keeps the others; so adding an action and then
    setting the value of the new last entry leaves the old actions followed
    by that value, and deleting the new last entry instead leaves the old
    actions. *)
Theorem rich_card_actions id data (store : Store) selectedNode :
  find (fun node => NodeData.id node =? id) (nodes store) = Some selectedNode ->
  let added :=
    {| RichCardData.title := RichCardData.title data;
       RichCardData.description := RichCardData.description data;
       RichCardData.image := RichCardData.image data;
       RichCardData.actions :=
         RichCardData.actions data ++ [{| value := "" |}] |} in
  let last := List.length (RichCardData.actions data) in
  contentOf id (exec (RichCard.addAction id data) store)
  = Some (RichCardContent added)
  /\ (forall index v,
        index < last ->
        exists edit acts,
          RichCard.updateAction id data index v = Some edit
          /\ contentOf id (exec edit store)
             = Some (RichCardContent
                       {| RichCardData.title := RichCardData.title data;
                          RichCardData.description :=
                            RichCardData.description data;
                          RichCardData.image := RichCardData.image data;
                          RichCardData.actions := acts |})
          /\ List.length acts = last
          /\ nth_error acts index = Some {| value := v |}
          /\ (forall j, j <> index ->
                        nth_error acts j
                        = nth_error (RichCardData.actions data) j))
  /\ (forall v,
        exists edit,
          RichCard.updateAction id added last v = Some edit
          /\ contentOf id
               (exec edit (exec (RichCard.addAction id data) store))
             = Some (RichCardContent
                       {| RichCardData.title := RichCardData.title data;
                          RichCardData.description :=
                            RichCardData.description data;
                          RichCardData.image := RichCardData.image data;
                          RichCardData.actions :=
                            RichCardData.actions data ++ [{| value := v |}] |}))
  /\ contentOf id
       (exec (RichCard.deleteActions id added last)
             (exec (RichCard.addAction id data) store))
     = Some (RichCardContent
               {| RichCardData.title := RichCardData.title data;
                  RichCardData.description := RichCardData.description data;
                  RichCardData.image := RichCardData.image data;
                  RichCardData.actions := RichCardData.actions data |}).
Proof.
  intros Hf added last.
  pose proof (find_after_replaceContent id (RichCardContent added) store
                selectedNode Hf) as Hf1.
  change (replaceContent id (RichCardContent added))
    with (RichCard.addAction id data) in Hf1.
  split; [|split; [|split]].
  - apply (contentOf_replaceContent id (RichCardContent added) _ _ Hf).
  - intros index v Hi.
    destruct (put_positions (RichCardData.actions data) {| value := v |}
                index Hi) as (Hlen & Hat & Hother).
    eexists; eexists; split; [|split; [|split; [|split]]].
    + unfold RichCard.updateAction; rewrite dense_assign by (fold last; lia).
      reflexivity.
    + apply (contentOf_replaceContent _ _ _ _ Hf).
    + exact Hlen.
    + exact Hat.
    + exact Hother.
  - intros v.
    assert (Hlast : last < List.length (RichCardData.actions added))
      by (cbn; rewrite length_app; cbn; unfold last; lia).
    eexists; split.
    + unfold RichCard.updateAction; rewrite dense_assign by lia.
      reflexivity.
    + etransitivity; [apply (contentOf_replaceContent _ _ _ _ Hf1)|].
      unfold RichCard.withActions; cbn [RichCardData.title
        RichCardData.description RichCardData.image RichCardData.actions added].
      do 3 f_equal.
      unfold last; rewrite firstn_app, Nat.sub_diag, firstn_all, firstn_O.
      rewrite skipn_all2 by (rewrite length_app; cbn; lia).
      rewrite !app_nil_r; reflexivity.
  - change (RichCard.deleteActions id added last)
      with (replaceContent id
              (RichCardContent
                 (RichCard.withActions added
                    (filter_index (fun _ i => negb (i =? last)%nat)
                       (RichCardData.actions added))))).
    rewrite (contentOf_replaceContent _ _ _ _ Hf1).
    rewrite filter_index_drops; cbn [RichCardData.actions added].
    unfold RichCard.withActions; cbn [RichCardData.title
      RichCardData.description RichCardData.image added].
    do 3 f_equal.
    unfold last; rewrite firstn_app, Nat.sub_diag, firstn_all, firstn_O.
    rewrite skipn_all2 by (rewrite length_app; cbn; lia).
    rewrite !app_nil_r; reflexivity.
Qed.

(** ** The further properties at concrete stores *)

Lemma unique_ids_witness :
  NoDup (map id_of (nodes (exec (removeNode "1")
                             ({| nodes := [newNode carousel 1;
                                           newNode richCard 2];
                                 connections := [] |} : Store)))).
Proof.
  refine (proj1 (proj2 (unique_ids_invariant
                          ({| nodes := [newNode carousel 1;
                                        newNode richCard 2];
                              connections := [] |} : Store) _)) "1").
  repeat constructor; cbn; intuition discriminate.
Defined.

Lemma addNode_then_removeNode_witness :
  (addNode (newNode richCard 2) ;; removeNode "2")%eff
    ({| nodes := [newNode carousel 1]; connections := [] |} : Store)
  = (Normal tt, {| nodes := [newNode carousel 1]; connections := [] |}).
Proof.
  refine (proj1 (addNode_then_removeNode
                   ({| nodes := [newNode carousel 1]; connections := [] |}
                    : Store)
                   (newNode richCard 2) _)).
  intros m [<-|[]]; vm_compute; discriminate.
Defined.

Lemma node_actions_compose_witness :
  exec (updateNode (newNode richCard 1))
       (exec (updateNode (newNode carousel 1))
             ({| nodes := [newNode carousel 1]; connections := [] |} : Store))
  = exec (updateNode (newNode richCard 1))
         ({| nodes := [newNode carousel 1]; connections := [] |} : Store).
Proof.
  exact (proj1 (proj2 (node_actions_compose
                         ({| nodes := [newNode carousel 1];
                             connections := [] |} : Store)))
               (newNode carousel 1) (newNode richCard 1) eq_refl).
Defined.

Lemma connection_actions_compose_witness :
  (addConnection
     (createConnectionData (newNode carousel 1) (newNode richCard 2)
        (newEdge {| Connection.source := "1"; Connection.target := "2";
                    Connection.sourceHandle := None;
                    Connection.targetHandle := None |} 3)) ;;
   removeConnection "edge-1-2-3")%eff (empty_store : Store)
  = (Normal tt, empty_store).
Proof.
  refine (proj2 (proj2 (connection_actions_compose (empty_store : Store)))
                (createConnectionData (newNode carousel 1) (newNode richCard 2)
                   (newEdge {| Connection.source := "1";
                               Connection.target := "2";
                               Connection.sourceHandle := None;
                               Connection.targetHandle := None |} 3)) _).
  intros c' [].
Defined.

Lemma import_with_nodes_array_witness :
  handleFileChange
    (Some (ReadText
             (Some (JObject [("nodes", JArray [JString "n"]);
                             ("connections", JString "not-an-array")]))))
    {| nodes := [JNull]; connections := [JNull] |}
  = (Normal None, {| nodes := [JString "n"]; connections := [] |}).
Proof.
  exact (import_with_nodes_array
           [("nodes", JArray [JString "n"]);
            ("connections", JString "not-an-array")]
           [JString "n"] {| nodes := [JNull]; connections := [JNull] |}
           eq_refl).
Defined.

Lemma import_twice_witness :
  exec (handleFileChange (Some (ReadText (Some (JArray [JNull])))))
       {| nodes := []; connections := [JNull] |}
  = exec (handleFileChange (Some (ReadText (Some (JArray [JNull])))))
         {| nodes := [JNull; JNull]; connections := [] |}.
Proof.
  refine (proj2 (import_twice (Some (ReadText (Some (JArray [JNull]))))
                   {| nodes := []; connections := [JNull] |}
                   {| nodes := [JNull; JNull]; connections := [] |}) _ _).
  - reflexivity.
  - discriminate.
Defined.


Lemma onAdd_ids_witness :
  NoDup (map NodeData.id
           (nodes (exec (onAdd richCard 2)
                        ({| nodes := [newNode carousel 1];
                            connections := [] |} : Store)))).
Proof.
  refine (proj1 (proj2 (onAdd_ids
                          ({| nodes := [newNode carousel 1];
                              connections := [] |} : Store)))
                richCard 2%N _ _).
  - repeat constructor; cbn; intuition.
  - intros node [<-|[]]; vm_compute; discriminate.
Defined.

Lemma onConnect_then_query_witness :
  exists connection,
    connections
      (exec (onConnect (fun _ eds => eds)
               [newNode carousel 1; newNode richCard 2] []
               {| Connection.source := "1"; Connection.target := "2";
                  Connection.sourceHandle := None;
                  Connection.targetHandle := None |} 3)
            (empty_store : Store))
    = [connection]
    /\ ConnectionData.sourceId connection = "1"
    /\ ConnectionData.targetId connection = "2".
Proof.
  destruct (onConnect_then_query (fun _ eds => eds)
              [newNode carousel 1; newNode richCard 2] []
              {| Connection.source := "1"; Connection.target := "2";
                 Connection.sourceHandle := None;
                 Connection.targetHandle := None |} 3%N
              (newNode carousel 1) (newNode richCard 2)
              (empty_store : Store) eq_refl eq_refl)
    as (connection & Hc & Hs & Ht & _).
  exists connection; auto.
Defined.

Lemma loadEdges_witness :
  loadEdges [newNode carousel 1; newNode richCard 2]
    (connections
       (exec (onConnect (fun _ eds => eds)
                [newNode carousel 1; newNode richCard 2] []
                {| Connection.source := "1"; Connection.target := "2";
                   Connection.sourceHandle := Some "";
                   Connection.targetHandle := Some "target-left-0" |} 3)
             (empty_store : Store)))
    []
  = [newEdge {| Connection.source := "1"; Connection.target := "2";
                Connection.sourceHandle := Some "";
                Connection.targetHandle := Some "target-left-0" |} 3].
Proof.
  exact (proj1 (loadEdges_mirrors_store (fun _ eds => eds)
                  [newNode carousel 1; newNode richCard 2] []
                  {| Connection.source := "1"; Connection.target := "2";
                     Connection.sourceHandle := Some "";
                     Connection.targetHandle := Some "target-left-0" |} 3%N
                  (newNode carousel 1) (newNode richCard 2)
                  (empty_store : Store) eq_refl eq_refl)).
Defined.


Lemma content_edits_witness :
  exists store',
    RichCard.updateField "2"
      {| RichCardData.title := ""; RichCardData.description := "";
         RichCardData.image := ""; RichCardData.actions := [] |}
      RichCard.Title "Hello"
      ({| nodes := [newNode carousel 1; newNode richCard 2];
          connections := [] |} : Store)
    = (Normal tt, store')
    /\ map NodeData.id (nodes store') = ["1"; "2"].
Proof.
  destruct (content_edits_keep_the_graph "2" {| cards := [] |}
              {| RichCardData.title := ""; RichCardData.description := "";
                 RichCardData.image := ""; RichCardData.actions := [] |}
              0%Z 0 0 RichCard.Title "Hello"
              (RichCard.updateField "2"
                 {| RichCardData.title := ""; RichCardData.description := "";
                    RichCardData.image := ""; RichCardData.actions := [] |}
                 RichCard.Title "Hello")
              ({| nodes := [newNode carousel 1; newNode richCard 2];
                  connections := [] |} : Store))
    as (store' & E & _ & Hids & _).
  - unfold content_edits, carousel_edits, rich_edits.
    apply in_or_app; right; right; left; reflexivity.
  - exists store'; split; [exact E|exact Hids].
Defined.

Lemma later_content_edit_wins_witness :
  let shown :=
    {| RichCardData.title := ""; RichCardData.description := "";
       RichCardData.image := ""; RichCardData.actions := [] |} in
  let store : Store :=
    {| nodes := [newNode richCard 2]; connections := [] |} in
  exec (RichCard.updateField "2" shown RichCard.Description "b")
       (exec (RichCard.updateField "2" shown RichCard.Title "a") store)
  = exec (RichCard.updateField "2" shown RichCard.Description "b") store.
Proof.
  cbv zeta.
  apply (later_content_edit_wins "2" {| cards := [] |}
           {| RichCardData.title := ""; RichCardData.description := "";
              RichCardData.image := ""; RichCardData.actions := [] |}
           0%Z 0 0 RichCard.Title "a"
           {| cards := [] |}
           {| RichCardData.title := ""; RichCardData.description := "";
              RichCardData.image := ""; RichCardData.actions := [] |}
           0%Z 0 0 RichCard.Description "b");
    unfold content_edits, carousel_edits, rich_edits;
    apply in_or_app; right; right; left; reflexivity.
Defined.

Lemma tags_match_content_witness :
  Forall (fun node => well_tagged node = true)
         (nodes (exec (CarouselCard.deleteCard "1" {| cards := [emptyCard] |} 0)
                      ({| nodes := [newNode carousel 1; newNode richCard 2];
                          connections := [] |} : Store))).
Proof.
  refine (proj1 (proj2 (tags_match_content
                          ({| nodes := [newNode carousel 1;
                                        newNode richCard 2];
                              connections := [] |} : Store) _))
                "1" {| cards := [emptyCard] |} 0%Z 0 0 ""
                (CarouselCard.deleteCard "1" {| cards := [emptyCard] |} 0)
                (newNode carousel 1) eq_refl eq_refl _).
  - repeat constructor.
  - unfold carousel_edits; apply in_or_app; left.
    right; right; left; reflexivity.
Defined.

Lemma addActionToCard_witness :
  contentOf "1"
    (exec (CarouselCard.addActionToCard "1" {| cards := [emptyCard] |} 0)
          ({| nodes := [newNode carousel 1]; connections := [] |} : Store))
  <> None.
Proof.
  destruct (addActionToCard_appends "1" {| cards := [emptyCard] |} 0
              ({| nodes := [newNode carousel 1]; connections := [] |} : Store)
              (newNode carousel 1) eq_refl) as (cs & E & _).
  rewrite E; discriminate.
Defined.

Lemma deleteCard_witness :
  contentOf "1"
    (exec (CarouselCard.deleteCard "1" {| cards := [emptyCard] |} 0)
          ({| nodes := [newNode carousel 1]; connections := [] |} : Store))
  = Some (CarouselContent {| cards := [] |}).
Proof.
  destruct (deleteCard_removes_one "1" {| cards := [emptyCard] |} 0
              ({| nodes := [newNode carousel 1]; connections := [] |} : Store)
              (newNode carousel 1) eq_refl) as (cs & E & _ & _ & _ & _ & H1).
  rewrite E, (H1 emptyCard eq_refl eq_refl); reflexivity.
Defined.

Lemma deleteCard_undoes_witness :
  let store : Store :=
    {| nodes := [newNode carousel 1; newNode richCard 2];
       connections := [] |} in
  exec (CarouselCard.deleteCard "1" {| cards := [emptyCard; newCardItem] |} 1)
       (exec (addNewCarouselCard "1" {| cards := [emptyCard] |} 0) store)
  = store.
Proof.
  cbv zeta.
  refine (deleteCard_undoes_addNewCarouselCard
            "1" {| cards := [emptyCard] |} 0%Z
            ({| nodes := [newNode carousel 1; newNode richCard 2];
                connections := [] |} : Store)
            (newNode carousel 1) {| cards := [emptyCard; newCardItem] |}
            _ eq_refl eq_refl _ eq_refl).
  - repeat constructor; cbn; intuition discriminate.
  - cbn; lia.
Defined.

Lemma CarouselCard_updateAction_witness :
  let shown :=
    {| cards := [{| title := "t"; description := ""; image := "";
                    actions := [{| value := "" |}]; selected := None |}] |} in
  exists edit,
    CarouselCard.updateAction "1" shown 0 0 "link" = Some edit.
Proof.
  cbv zeta.
  destruct (CarouselCard_updateAction_sets "1"
              {| cards := [{| title := "t"; description := ""; image := "";
                              actions := [{| value := "" |}];
                              selected := None |}] |}
              0 0 "link"
              ({| nodes := [newNode carousel 1]; connections := [] |} : Store)
              (newNode carousel 1)
              {| title := "t"; description := ""; image := "";
                 actions := [{| value := "" |}]; selected := None |}
              eq_refl eq_refl (le_n 1)) as (edit & cs & acts & E & _).
  exists edit; exact E.
Defined.

Lemma rich_card_actions_witness :
  contentOf "2"
    (exec (RichCard.addAction "2"
             {| RichCardData.title := ""; RichCardData.description := "";
                RichCardData.image := ""; RichCardData.actions := [] |})
          ({| nodes := [newNode richCard 2]; connections := [] |} : Store))
  = Some (RichCardContent
            {| RichCardData.title := ""; RichCardData.description := "";
               RichCardData.image := "";
               RichCardData.actions := [{| value := "" |}] |}).
Proof.
  exact (proj1 (rich_card_actions "2"
                  {| RichCardData.title := ""; RichCardData.description := "";
                     RichCardData.image := ""; RichCardData.actions := [] |}
                  ({| nodes := [newNode richCard 2]; connections := [] |}
                   : Store)
                  (newNode richCard 2) eq_refl)).
Defined.

